(** * NIfTI image loading through KvikIO: a shallow embedding

    The development follows [notebooks/medical_nifti_image_loading_example.ipynb]:
    the accelerated loader [nifti_gpu_load], the reference loader
    ([nib.load] followed by [get_fdata]) and the two validation cells
    ([np.all] on the affines, [np.allclose] on the voxel arrays).

    Python values are modelled as the notebook uses them: byte buffers as
    [list byte], Python integers as [Z], array views as records of a shared
    buffer with an offset, a shape and byte strides, IEEE-754 doubles as
    [spec_float] with the Standard Library's executable operations at
    precision 53, dictionaries as [gmap string _], exceptions as a sum type
    threaded through a state-and-error monad over the file system and the
    table of open file handles. *)

From Stdlib Require Import ZArith List Bool Lia.
From Stdlib Require Import Strings.Byte.
From Stdlib Require Import Floats.SpecFloat.
From stdpp Require Import base option list strings gmap.

Local Open Scope Z_scope.

(** ** Exceptions *)

(** The Python exception classes that the notebook's calls can raise.
    [OSError] carries its errno; [FileNotFoundError] and [PermissionError]
    are its subclasses for [ENOENT] and [EACCES], and [IOError] is an alias
    of [OSError].  [OverflowError] is what [int] raises on an infinite
    value, as when a header field that holds infinity is read as an
    integer. *)
Inductive errno := ENOENT | EACCES | EIO.

Inductive exn :=
  | OSError (e : errno)
  | ValueError
  | IndexError
  | OverflowError
  | WrapStructError
  | HeaderDataError
  | ImageFileError.

Definition result (A : Type) : Type := exn + A.

Definition raise {A} (e : exn) : result A := inl e.

Definition rbind {A B} (r : result A) (k : A -> result B) : result B :=
  match r with
  | inl e => inl e
  | inr a => k a
  end.

#[global] Instance result_ret : MRet result := fun A a => inr a.
#[global] Instance result_bind : MBind result := fun A B k r => rbind r k.

(** The error taxonomy of the design document, read on the Python classes:
    an I/O error is an [OSError]; a format error is one of the header
    parser's own exceptions or the [ValueError] of a reinterpretation that
    does not fit; a shape mismatch is the [ValueError] of a failed
    broadcast. *)
Definition IOError (e : exn) : bool :=
  match e with OSError _ => true | _ => false end.

Definition FormatError (e : exn) : bool :=
  match e with
  | WrapStructError | HeaderDataError | ValueError => true
  | _ => false
  end.

Definition ShapeMismatchError (e : exn) : bool :=
  match e with ValueError => true | _ => false end.

(** ** Bytes and scalars *)

Definition byte_of_Z (z : Z) : byte :=
  match Byte.of_N (Z.to_N (z mod 256)) with
  | Some b => b
  | None => x00
  end.

Definition Z_of_byte (b : byte) : Z := Z.of_N (Byte.to_N b).

(** [int.from_bytes(bs, "little")] *)
Fixpoint int_from_bytes (bs : list byte) : Z :=
  match bs with
  | [] => 0
  | b :: bs' => Z_of_byte b + 256 * int_from_bytes bs'
  end.

(** [z.to_bytes(n, "little")] on the low [n] bytes of [z] *)
Fixpoint int_to_bytes (n : nat) (z : Z) : list byte :=
  match n with
  | O => []
  | S n' => byte_of_Z z :: int_to_bytes n' (z / 256)
  end.

Definition signed (bits : Z) (u : Z) : Z :=
  if 2 ^ (bits - 1) <=? u then u - 2 ^ bits else u.

(** The element types of the model: the fixed-width little-endian integer
    and binary floating-point types of the format. *)
Inductive dtype :=
  | uint8 | int8 | int16 | uint16 | int32 | uint32 | int64 | uint64
  | float32 | float64.

Definition itemsize (d : dtype) : Z :=
  match d with
  | uint8 | int8 => 1
  | int16 | uint16 => 2
  | int32 | uint32 | float32 => 4
  | int64 | uint64 | float64 => 8
  end.

(** Doubles: precision 53, exponent bound 1024. *)
Definition f64_normalize : Z -> Z -> bool -> spec_float := binary_normalize 53 1024.
Definition f64_add : spec_float -> spec_float -> spec_float := SFadd 53 1024.
Definition f64_sub : spec_float -> spec_float -> spec_float := SFsub 53 1024.
Definition f64_mul : spec_float -> spec_float -> spec_float := SFmul 53 1024.

(** The value of an IEEE-754 bit pattern with [mw] mantissa bits and [ew]
    exponent bits, as a double.  Every binary32 and binary64 value is a
    double, so the conversion is exact. *)
Definition float_of_bits (mw ew : Z) (bits : Z) : spec_float :=
  let s := Z.testbit bits (mw + ew) in
  let e := Z.land (Z.shiftr bits mw) (2 ^ ew - 1) in
  let m := Z.land bits (2 ^ mw - 1) in
  let bias := 2 ^ (ew - 1) - 1 in
  if e =? 2 ^ ew - 1 then
    if m =? 0 then S754_infinity s else S754_nan
  else if e =? 0 then
    f64_normalize (cond_Zopp s m) (1 - bias - mw) s
  else
    f64_normalize (cond_Zopp s (m + 2 ^ mw)) (e - bias - mw) s.

(** A scalar read from an array: an exact integer for the integer types,
    a double-representable value for the floating types. *)
Inductive scalar :=
  | SInt (z : Z)
  | SFloat (f : spec_float).

Definition decode (d : dtype) (bs : list byte) : scalar :=
  let u := int_from_bytes bs in
  match d with
  | uint8 | uint16 | uint32 | uint64 => SInt u
  | int8 => SInt (signed 8 u)
  | int16 => SInt (signed 16 u)
  | int32 => SInt (signed 32 u)
  | int64 => SInt (signed 64 u)
  | float32 => SFloat (float_of_bits 23 8 u)
  | float64 => SFloat (float_of_bits 52 11 u)
  end.

(** [astype(np.float64)] on one element: integers are rounded to the
    nearest double, ties to even. *)
Definition to_float64 (x : scalar) : spec_float :=
  match x with
  | SInt z => f64_normalize z 0 false
  | SFloat f => f
  end.

Definition is_nan (f : spec_float) : bool :=
  match f with S754_nan => true | _ => false end.

Definition is_finite (f : spec_float) : bool :=
  match f with S754_zero _ | S754_finite _ _ _ => true | _ => false end.

Definition scalar_is_nan (x : scalar) : bool :=
  match x with SInt _ => false | SFloat f => is_nan f end.

(** ** Arrays

    A [cupy.ndarray] or [numpy.ndarray]: a window on a byte buffer.  Slices,
    [view] and a reshape of a contiguous array share [nd_base] with the array
    they come from; only offset, shape, strides and element type change. *)
Record ndarray := {
  nd_base : list byte;
  nd_offset : Z;
  nd_dtype : dtype;
  nd_shape : list Z;
  nd_strides : list Z
}.

Definition prod (s : list Z) : Z := fold_right Z.mul 1 s.

Definition nd_size (a : ndarray) : Z := prod (nd_shape a).

(** [cp.empty(n, dtype=d)]: the content is unspecified until it is written;
    the model starts it at zero. *)
Definition cp_empty (n : Z) (d : dtype) : ndarray :=
  {| nd_base := repeat x00 (Z.to_nat (n * itemsize d));
     nd_offset := 0;
     nd_dtype := d;
     nd_shape := [n];
     nd_strides := [itemsize d] |}.

(** [slice(start, stop).indices(n)] for step 1 *)
Definition clamp_index (n i : Z) : Z :=
  if i <? 0 then Z.max 0 (i + n) else Z.min i n.

Definition slice_indices (n : Z) (start stop : option Z) : Z * Z :=
  (match start with None => 0 | Some i => clamp_index n i end,
   match stop with None => n | Some j => clamp_index n j end).

(** [a[start:stop]]: a view on the first axis *)
Definition getslice (a : ndarray) (start stop : option Z) : result ndarray :=
  match nd_shape a, nd_strides a with
  | n :: ds, s :: ss =>
      let '(lo, hi) := slice_indices n start stop in
      inr {| nd_base := nd_base a;
             nd_offset := nd_offset a + lo * s;
             nd_dtype := nd_dtype a;
             nd_shape := Z.max 0 (hi - lo) :: ds;
             nd_strides := s :: ss |}
  | _, _ => raise IndexError
  end.

(** One index of [a[i0, i1, ...]]: negative indices count from the end. *)
Definition norm_index (d i : Z) : option Z :=
  if (0 <=? i) && (i <? d) then Some i
  else if (- d <=? i) && (i <? 0) then Some (i + d)
  else None.

Fixpoint item_offset (shape strides idx : list Z) : option Z :=
  match shape, strides, idx with
  | [], [], [] => Some 0
  | d :: ds, s :: ss, i :: idx' =>
      match norm_index d i, item_offset ds ss idx' with
      | Some i', Some r => Some (i' * s + r)
      | _, _ => None
      end
  | _, _, _ => None
  end.

Definition item_bytes (a : ndarray) (pos : Z) : list byte :=
  take (Z.to_nat (itemsize (nd_dtype a)))
       (drop (Z.to_nat (nd_offset a + pos)) (nd_base a)).

(** The element [a[i1, ..., in]] at an index with one entry per axis, as
    the comparisons read it.  This is element access only: what [a[idx]]
    gives for an index with fewer entries than axes is a view, which is
    [subscript] below. *)
Definition getitem (a : ndarray) (idx : list Z) : result scalar :=
  match item_offset (nd_shape a) (nd_strides a) idx with
  | Some pos => inr (decode (nd_dtype a) (item_bytes a pos))
  | None => raise IndexError
  end.

(** The axes an index of integers selects, one entry per axis from the
    first: the byte position it reaches, and the extents and strides of the
    axes that are left.  There is no result when an entry is out of range or
    when there are more entries than axes. *)
Fixpoint index_axes (shape strides idx : list Z) {struct idx}
    : option (Z * (list Z * list Z)) :=
  match idx with
  | [] => Some (0, (shape, strides))
  | i :: idx' =>
      match shape, strides with
      | d :: ds, s :: ss =>
          match norm_index d i, index_axes ds ss idx' with
          | Some i', Some (r, rest) => Some (i' * s + r, rest)
          | _, _ => None
          end
      | _, _ => None
      end
  end.

(** [a[idx]] for a tuple of integers: the element when every axis is
    indexed (a scalar in [numpy], an array without axes in [cupy]; the model
    gives its value), a view on the remaining axes when the index has fewer
    entries than the array has axes, [IndexError] when an entry is out of
    range or there are too many. *)
Definition subscript (a : ndarray) (idx : list Z) : result (scalar + ndarray) :=
  match index_axes (nd_shape a) (nd_strides a) idx with
  | Some (pos, ([], _)) => inr (inl (decode (nd_dtype a) (item_bytes a pos)))
  | Some (pos, (sh, st)) =>
      inr (inr {| nd_base := nd_base a;
                  nd_offset := nd_offset a + pos;
                  nd_dtype := nd_dtype a;
                  nd_shape := sh;
                  nd_strides := st |})
  | None => raise IndexError
  end.

Definition zrange (n : Z) : list Z := map Z.of_nat (seq 0 (Z.to_nat n)).

(** [np.ndindex]: every index, the last one varying fastest *)
Fixpoint ndindex (shape : list Z) : list (list Z) :=
  match shape with
  | [] => [[]]
  | d :: ds => flat_map (fun i => map (cons i) (ndindex ds)) (zrange d)
  end.

(** Every index, the first one varying fastest *)
Definition ndindex_F (shape : list Z) : list (list Z) :=
  map (@rev Z) (ndindex (rev shape)).

Definition bytes_at (a : ndarray) (idx : list Z) : list byte :=
  match item_offset (nd_shape a) (nd_strides a) idx with
  | Some pos => item_bytes a pos
  | None => []
  end.

(** [a.tobytes(order="C")] and [a.tobytes(order="F")] *)
Definition tobytes (a : ndarray) : list byte :=
  flat_map (bytes_at a) (ndindex (nd_shape a)).

Definition tobytes_F (a : ndarray) : list byte :=
  flat_map (bytes_at a) (ndindex_F (nd_shape a)).

(** Strides of a C-contiguous and of a Fortran-contiguous array *)
Fixpoint f_strides (w : Z) (shape : list Z) : list Z :=
  match shape with
  | [] => []
  | d :: ds => w :: f_strides (w * d) ds
  end.

Definition c_strides (w : Z) (shape : list Z) : list Z :=
  rev (f_strides w (rev shape)).

(** [cp.asnumpy(a)]: a contiguous copy in host memory *)
Definition cp_asnumpy (a : ndarray) : ndarray :=
  {| nd_base := tobytes a;
     nd_offset := 0;
     nd_dtype := nd_dtype a;
     nd_shape := nd_shape a;
     nd_strides := c_strides (itemsize (nd_dtype a)) (nd_shape a) |}.

(** [io.BytesIO(a)]: the stream holds the bytes of the array *)
Definition BytesIO (a : ndarray) : list byte := tobytes a.

(** [a.view(d)]: the same bytes under another element type.  When the item
    size changes, the last axis must be contiguous and its byte length a
    multiple of the new item size. *)
Definition ndarray_view (a : ndarray) (d : dtype) : result ndarray :=
  let w := itemsize (nd_dtype a) in
  let w' := itemsize d in
  if w' =? w then
    inr {| nd_base := nd_base a; nd_offset := nd_offset a; nd_dtype := d;
           nd_shape := nd_shape a; nd_strides := nd_strides a |}
  else
    match rev (nd_shape a), rev (nd_strides a) with
    | n :: rds, s :: rss =>
        if (s =? w) && ((n * w) mod w' =? 0) then
          inr {| nd_base := nd_base a; nd_offset := nd_offset a; nd_dtype := d;
                 nd_shape := rev (n * w / w' :: rds);
                 nd_strides := rev (w' :: rss) |}
        else raise ValueError
    | _, _ => raise ValueError
    end.

(** The shape argument of [reshape]: one entry may be negative (by
    convention [-1]) and is inferred from the size and the other entries;
    two negative entries are refused. *)
Definition resolve_shape (size : Z) (newshape : list Z) : result (list Z) :=
  match filter (fun d => bool_decide (d < 0)) newshape with
  | [] => if prod newshape =? size then inr newshape else raise ValueError
  | [_] =>
      let known := prod (filter (fun d => bool_decide (0 ≤ d)) newshape) in
      if (known =? 0) || negb (size mod known =? 0) then raise ValueError
      else inr (map (fun d => if d <? 0 then size / known else d) newshape)
  | _ => raise ValueError
  end.

(** [a.reshape(newshape, order="F")]: a view when [a] is a contiguous
    one-dimensional array, a Fortran-ordered copy otherwise. *)
Definition ndarray_reshape_F (a : ndarray) (newshape : list Z) : result ndarray :=
  shape' ← resolve_shape (nd_size a) newshape;
  let w := itemsize (nd_dtype a) in
  let contiguous :=
    match nd_shape a, nd_strides a with
    | [_], [s] => s =? w
    | _, _ => false
    end in
  mret {| nd_base := if contiguous then nd_base a else tobytes_F a;
          nd_offset := if contiguous then nd_offset a else 0;
          nd_dtype := nd_dtype a;
          nd_shape := shape';
          nd_strides := f_strides w shape' |}.

(** A [float64] array in host memory, as [get_fdata] returns it: the
    elements in Fortran order. *)
Record farray := {
  f_shape : list Z;
  f_data : list spec_float
}.

Fixpoint f_linear (shape idx : list Z) : option Z :=
  match shape, idx with
  | [], [] => Some 0
  | d :: ds, i :: idx' =>
      match norm_index d i, f_linear ds idx' with
      | Some i', Some r => Some (i' + d * r)
      | _, _ => None
      end
  | _, _ => None
  end.

Definition fgetitem (a : farray) (idx : list Z) : result spec_float :=
  match f_linear (f_shape a) idx with
  | Some k =>
      match f_data a !! Z.to_nat k with
      | Some x => inr x
      | None => raise IndexError
      end
  | None => raise IndexError
  end.

(** ** The file system and the table of open handles *)

Inductive access :=
  | Readable
  | Denied   (* the file exists but cannot be opened for reading *)
  | Faulty.  (* the file opens but reading it fails *)

Record filenode := {
  content : list byte;
  mode : access
}.

Record world := {
  fs : gmap string filenode;
  handles : gmap nat string
}.

(** Computations that read the world, may change the handle table and may
    raise. *)
Definition M (A : Type) : Type := world -> result A * world.

#[global] Instance M_ret : MRet M := fun A a w => (inr a, w).
#[global] Instance M_bind : MBind M := fun A B k m w =>
  match m w with
  | (inl e, w') => (inl e, w')
  | (inr a, w') => k a w'
  end.

Definition lift {A} (r : result A) : M A := fun w => (r, w).

(** [os.path.getsize]: a [stat] call, which needs no read permission on the
    file; a missing path raises [FileNotFoundError]. *)
Definition os_path_getsize (filename : string) : M Z := fun w =>
  match fs w !! filename with
  | None => (raise (OSError ENOENT), w)
  | Some node => (inr (Z.of_nat (length (content node))), w)
  end.

(** Modelled from the spec: [kvikio.CuFile] is not part of the notebook.  The
    storage reader opens a path for reading, fails with an I/O error when the
    path does not exist or is unreadable, reads the file into the buffer it is
    given, and releases its handle when closed. *)
Definition CuFile_open (filename : string) : M nat := fun w =>
  match fs w !! filename with
  | None => (raise (OSError ENOENT), w)
  | Some node =>
      match mode node with
      | Denied => (raise (OSError EACCES), w)
      | _ =>
          let f := fresh (dom (handles w)) in
          (inr f, {| fs := fs w; handles := <[f := filename]> (handles w) |})
      end
  end.

(** Modelled from the spec: [CuFile.read(buf)] fills the bytes of [buf] from
    the start of the file, as many as the file has. *)
Definition CuFile_read (f : nat) (buf : ndarray) : M ndarray := fun w =>
  match handles w !! f with
  | None => (raise ValueError, w)
  | Some filename =>
      match fs w !! filename with
      | None => (raise (OSError ENOENT), w)
      | Some node =>
          match mode node with
          | Readable =>
              let start := Z.to_nat (nd_offset buf) in
              let nbytes := Z.to_nat (nd_size buf * itemsize (nd_dtype buf)) in
              let data := take nbytes (content node) in
              (inr {| nd_base := take start (nd_base buf) ++ data
                                 ++ drop (start + length data) (nd_base buf);
                      nd_offset := nd_offset buf;
                      nd_dtype := nd_dtype buf;
                      nd_shape := nd_shape buf;
                      nd_strides := nd_strides buf |}, w)
          | _ => (raise (OSError EIO), w)
          end
      end
  end.

(** Modelled from the spec: [CuFile.close()] releases the handle. *)
Definition CuFile_close (f : nat) : M unit := fun w =>
  (inr tt, {| fs := fs w; handles := delete f (handles w) |}).

(** [with kvikio.CuFile(filename, "r") as f: body]: the handle is closed when
    the block is left, whether [body] returned or raised; nothing is to be
    closed when opening itself raised. *)
Definition with_CuFile {A} (filename : string) (body : nat -> M A) : M A := fun w =>
  match CuFile_open filename w with
  | (inl e, w1) => (inl e, w1)
  | (inr f, w1) =>
      let '(r, w2) := body f w1 in
      match CuFile_close f w2 with
      | (inl e, w3) => (inl e, w3)
      | (inr _, w3) => (r, w3)
      end
  end.

(** ** The header parser

    [nibabel] is a collaborator of the notebook, not part of it.  The loader
    needs from it what follows: the construction of a header from a binary
    block of the right size (decoding and checking the fields), the four
    accessors the loader calls, the header's items for [dict(header)], the
    scale factors the reference path applies, the parser of header
    extensions, and the arithmetic of [apply_read_scaling].

    A value of type [header] is a header that was accepted and whose data
    offset, shape, element type and affine can be read.  The accelerated
    loader reads these four right after the header is built, and the
    reference loader reads them while it builds the image, before it returns
    anything; so an exception of one of these accessors (an infinite
    [vox_offset] read as an integer, say) ends either load as an exception
    of the construction does.  [wrapstruct_init] stands for the construction
    followed by this first reading, and the accessors are total on what it
    returns.  Two things are left out: an exception of [get_slope_inter],
    which only the reference path calls, and the order of the exceptions in
    the reference path when the header extensions, which it reads in
    between, are refused as well. *)

Definition affine : Type := list (list spec_float).

Class HeaderParser := {
  header : Type;
  extension : Type;
  wrapstruct_init : list byte -> result header;
  get_data_offset : header -> Z;
  get_data_shape : header -> list Z;
  get_data_dtype : header -> dtype;
  get_best_affine : header -> affine;
  get_slope_inter : header -> option (spec_float * spec_float);
  header_items : header -> list (string * list byte);
  exts_from_fileobj : header -> list byte -> result (list extension);
  apply_read_scaling : spec_float -> spec_float -> scalar -> spec_float
}.

(** A Python object stored in the metadata dictionary: the raw value of a
    header field, or a matrix. *)
Inductive pyobj :=
  | Field (raw : list byte)
  | Matrix (a : affine).

(** [dict(items)]: a later item replaces an earlier one with the same key. *)
Definition dict_of_items {V} (items : list (string * V)) : gmap string V :=
  foldl (fun m kv => <[kv.1 := kv.2]> m) ∅ items.

Definition sizeof_hdr : nat := 348.

Section Loader.
Context {parser : HeaderParser}.

Record Nifti1Header := {
  structarr : header;
  extensions : list extension
}.

(** [Nifti1Header(binaryblock)]: a block of the wrong size is refused
    before any field is looked at. *)
Definition Nifti1Header_init (binaryblock : list byte) : result header :=
  if bool_decide (length binaryblock = sizeof_hdr) then wrapstruct_init binaryblock
  else raise WrapStructError.

(** [Nifti1Header.from_fileobj(fileobj)]: read the fixed-size block, build
    the header, then read four more bytes; extensions are parsed when all
    four are there and the first is not zero. *)
Definition Nifti1Header_from_fileobj (fileobj : list byte) : result Nifti1Header :=
  let raw_str := take sizeof_hdr fileobj in
  hdr ← Nifti1Header_init raw_str;
  let extension_status := take 4 (drop sizeof_hdr fileobj) in
  match extension_status with
  | b0 :: _ :: _ :: _ :: _ =>
      if Byte.eqb b0 x00 then
        mret {| structarr := hdr; extensions := [] |}
      else
        exts ← exts_from_fileobj hdr (drop (sizeof_hdr + 4) fileobj);
        mret {| structarr := hdr; extensions := exts |}
  | _ => mret {| structarr := hdr; extensions := [] |}
  end.

(** *** The accelerated path

    The function of the notebook, statement by statement.  [f.read(image)]
    writes into [image]; the model rebinds [image] to the written buffer.
    The three calls of the return expression are bound one after the other,
    in the order Python evaluates them. *)

Definition nifti_gpu_load (filename : string) : M (ndarray * gmap string pyobj) :=
  file_size ← os_path_getsize filename;
  let image := cp_empty file_size uint8 in
  image ← with_CuFile filename (fun f => CuFile_read f image);
  header_slice ← lift (getslice image None (Some 348));
  let header_bytes := cp_asnumpy header_slice in
  hdr ← lift (Nifti1Header_from_fileobj (BytesIO header_bytes));
  let data_offset := get_data_offset (structarr hdr) in
  let data_shape := get_data_shape (structarr hdr) in
  let data_dtype := get_data_dtype (structarr hdr) in
  let affine := get_best_affine (structarr hdr) in
  let meta := dict_of_items (prod_map id Field <$> header_items (structarr hdr)) in
  let meta := <["affine" := Matrix affine]> meta in
  payload ← lift (getslice image (Some data_offset) None);
  typed ← lift (ndarray_view payload data_dtype);
  arr ← lift (ndarray_reshape_F typed data_shape);
  mret (arr, meta).

(** *** The reference path

    [nib.load] and [get_fdata] are [nibabel]'s.  The model follows them on
    a single-file image: the header is parsed from the file itself (so
    extensions are read), the affine is the header's best affine, and the
    voxels are read lazily from the data offset, scaled when the header
    asks for it and converted to [float64].  Which exception a damaged
    file raises is the library's business; the statements below rely on
    the path through which a file loads. *)

Record Nifti1Image := {
  img_header : Nifti1Header;
  img_affine : affine;
  img_filename : string
}.

Definition nib_load (filename : string) : M Nifti1Image := fun w =>
  match fs w !! filename with
  | None => (raise (OSError ENOENT), w)
  | Some node =>
      if bool_decide (length (content node) = 0%nat) then (raise ImageFileError, w)
      else
        match mode node with
        | Denied => (raise (OSError EACCES), w)
        | Faulty => (raise (OSError EIO), w)
        | Readable =>
            match Nifti1Header_from_fileobj (content node) with
            | inl e => (inl e, w)
            | inr hdr =>
                (inr {| img_header := hdr;
                        img_affine := get_best_affine (structarr hdr);
                        img_filename := filename |}, w)
            end
        end
  end.

(** The [n] consecutive items of [w] bytes each at the start of [bs] *)
Definition items_of (w n : Z) (bs : list byte) : list (list byte) :=
  map (fun k => take (Z.to_nat w) (drop (Z.to_nat (k * w)) bs)) (zrange n).

(** [array_from_file(shape, dtype, infile, offset, order="F")]: exactly
    the bytes the shape asks for are read from [offset]; bytes after them
    are left alone. *)
Definition array_from_file (shape : list Z) (dt : dtype) (infile : list byte)
    (offset : Z) : result (list scalar) :=
  let n_bytes := prod shape * itemsize dt in
  if offset <? 0 then raise ValueError
  else
    let data_bytes := take (Z.to_nat n_bytes) (drop (Z.to_nat offset) infile) in
    if bool_decide (Z.of_nat (length data_bytes) = n_bytes) then
      inr (decode dt <$> items_of (itemsize dt) (prod shape) data_bytes)
    else raise (OSError EIO).

Definition get_fdata (img : Nifti1Image) : M farray := fun w =>
  match fs w !! img_filename img with
  | None => (raise (OSError ENOENT), w)
  | Some node =>
      let h := structarr (img_header img) in
      match array_from_file (get_data_shape h) (get_data_dtype h)
              (content node) (get_data_offset h) with
      | inl e => (inl e, w)
      | inr raw =>
          let scaled :=
            match get_slope_inter h with
            | None => to_float64 <$> raw
            | Some (slope, inter) => apply_read_scaling slope inter <$> raw
            end in
          (inr {| f_shape := get_data_shape h; f_data := scaled |}, w)
      end
  end.

End Loader.

(** ** The validation cells *)

(** Broadcasting of two shapes, aligned on their last axes: two extents are
    compatible when they are equal or one of them is 1. *)
Fixpoint broadcast_rev (r1 r2 : list Z) : option (list Z) :=
  match r1, r2 with
  | [], r => Some r
  | r, [] => Some r
  | d1 :: r1', d2 :: r2' =>
      match broadcast_rev r1' r2' with
      | None => None
      | Some r =>
          if d1 =? d2 then Some (d1 :: r)
          else if d1 =? 1 then Some (d2 :: r)
          else if d2 =? 1 then Some (d1 :: r)
          else None
      end
  end.

Definition broadcast_shapes (s1 s2 : list Z) : option (list Z) :=
  @rev Z <$> broadcast_rev (rev s1) (rev s2).

(** The index into an array of shape [s] that an index of the broadcast
    shape reads: leading axes are dropped and an axis of extent 1 is read at
    0. *)
Definition broadcast_index (s idx : list Z) : list Z :=
  zip_with (fun d i => if d =? 1 then 0 else i) s (drop (length idx - length s) idx).

(** [rtol=1e-05] and [atol=1e-08], the defaults of [np.allclose], as doubles *)
Definition default_rtol : spec_float := S754_finite false 0x14f8b588e368f1 (-69).
Definition default_atol : spec_float := S754_finite false 0x15798ee2308c3a (-79).

(** [np.isclose] on two doubles with [equal_nan=False]: finite values are
    close when [abs(x - y) <= atol + rtol * abs(y)]; otherwise they must be
    equal, and a NaN equals nothing. *)
Definition isclose (rtol atol x y : spec_float) : bool :=
  if is_finite x && is_finite y then
    SFleb (SFabs (f64_sub x y)) (f64_add atol (f64_mul rtol (SFabs y)))
  else SFeqb x y.

Fixpoint all_results (l : list (result bool)) : result bool :=
  match l with
  | [] => inr true
  | r :: l' =>
      b ← r;
      bs ← all_results l';
      mret (b && bs)
  end.

(** [np.allclose(a, b)] with [a] the reference array and [b] the accelerated
    one: both are broadcast to a common shape, [b] is promoted to [float64],
    and every pair of elements must be close.  Shapes that do not broadcast
    raise [ValueError]. *)
Definition np_allclose (rtol atol : spec_float) (a : farray) (b : ndarray) : result bool :=
  match broadcast_shapes (f_shape a) (nd_shape b) with
  | None => raise ValueError
  | Some s =>
      all_results
        ((fun idx =>
            x ← fgetitem a (broadcast_index (f_shape a) idx);
            y ← getitem b (broadcast_index (nd_shape b) idx);
            mret (isclose rtol atol x (to_float64 y))) <$> ndindex s)
  end.

(** [np.all(m1 == m2)] on two matrices of the same shape *)
Definition np_all_eq (m1 m2 : affine) : bool :=
  forallb id (zip_with (fun r1 r2 => forallb id (zip_with SFeqb r1 r2)) m1 m2).

(** ** A parser instance

    A small reader of single-file NIfTI-1 headers, with the fields at the
    offsets the format fixes.  It stands in for [nibabel] where the loader
    is run on concrete files, and follows it on little-endian headers with
    one of the element types of the model and a set sform: the guess of the
    byte order, the checks of the header with their repairs, the accessors,
    and the reader of header extensions.  What it cannot reproduce it
    refuses with [HeaderDataError], where [nibabel] goes on: a header that
    would be read as big-endian, a complex or RGB data type, and a header
    whose sform code is not one of 1 to 4 or whose qform code is not one of
    0 to 4, for which [nibabel] resets the code and takes the affine from
    the quaternion fields or from the voxel sizes. *)
Module MiniNifti1.

(** name, offset and byte length of every field of the header *)
Definition layout : list (string * (nat * nat)) :=
  [ ("sizeof_hdr", (0, 4)); ("data_type", (4, 10)); ("db_name", (14, 18));
    ("extents", (32, 4)); ("session_error", (36, 2)); ("regular", (38, 1));
    ("dim_info", (39, 1)); ("dim", (40, 16)); ("intent_p1", (56, 4));
    ("intent_p2", (60, 4)); ("intent_p3", (64, 4)); ("intent_code", (68, 2));
    ("datatype", (70, 2)); ("bitpix", (72, 2)); ("slice_start", (74, 2));
    ("pixdim", (76, 32)); ("vox_offset", (108, 4)); ("scl_slope", (112, 4));
    ("scl_inter", (116, 4)); ("slice_end", (120, 2)); ("slice_code", (122, 1));
    ("xyzt_units", (123, 1)); ("cal_max", (124, 4)); ("cal_min", (128, 4));
    ("slice_duration", (132, 4)); ("toffset", (136, 4)); ("glmax", (140, 4));
    ("glmin", (144, 4)); ("descrip", (148, 80)); ("aux_file", (228, 24));
    ("qform_code", (252, 2)); ("sform_code", (254, 2)); ("quatern_b", (256, 4));
    ("quatern_c", (260, 4)); ("quatern_d", (264, 4)); ("qoffset_x", (268, 4));
    ("qoffset_y", (272, 4)); ("qoffset_z", (276, 4)); ("srow_x", (280, 16));
    ("srow_y", (296, 16)); ("srow_z", (312, 16)); ("intent_name", (328, 16));
    ("magic", (344, 4)) ]%nat.

Definition bytes_of (off len : nat) (raw : list byte) : list byte :=
  take len (drop off raw).

Definition int_at (off len : nat) (raw : list byte) : Z :=
  int_from_bytes (bytes_of off len raw).

Definition sint_at (off len : nat) (raw : list byte) : Z :=
  signed (8 * Z.of_nat len) (int_at off len raw).

Definition f32_at (off : nat) (raw : list byte) : spec_float :=
  float_of_bits 23 8 (int_at off 4 raw).

(** [buf[off : off + len(bs)] = bs] *)
Definition poke (off : nat) (bs buf : list byte) : list byte :=
  take off buf ++ bs ++ drop (off + length bs) buf.

Definition dtype_of_code (code : Z) : option dtype :=
  if code =? 2 then Some uint8
  else if code =? 4 then Some int16
  else if code =? 8 then Some int32
  else if code =? 16 then Some float32
  else if code =? 64 then Some float64
  else if code =? 256 then Some int8
  else if code =? 512 then Some uint16
  else if code =? 768 then Some uint32
  else if code =? 1024 then Some int64
  else if code =? 1280 then Some uint64
  else None.

Definition magic_single : list byte := [x6e; x2b; x31; x00].
Definition magic_pair : list byte := [x6e; x69; x31; x00].

Definition has_magic (m raw : list byte) : bool :=
  bool_decide (Z_of_byte <$> bytes_of 344 4 raw = Z_of_byte <$> m).

Definition f64_zero : spec_float := S754_zero false.
Definition f64_one : spec_float := S754_finite false 4503599627370496 (-52).
Definition f32_bits_one : Z := 0x3F800000.

Definition is_zero (x : spec_float) : bool :=
  match x with S754_zero _ => true | _ => false end.

Definition is_negative (x : spec_float) : bool :=
  match x with
  | S754_finite true _ _ | S754_infinity true => true
  | _ => false
  end.

(** [int(x)] on a finite double: truncation toward zero *)
Definition trunc (x : spec_float) : Z :=
  match x with
  | S754_finite s m e =>
      cond_Zopp s (if 0 <=? e then Z.pos m * 2 ^ e else Z.pos m / 2 ^ (- e))
  | _ => 0
  end.

(** [guessed_endian]: the header is taken as native (little-endian here)
    when [dim[0]] is between 1 and 7, or is 0 with [sizeof_hdr] at 348. *)
Definition guessed_native (raw : list byte) : bool :=
  let dim0 := sint_at 40 2 raw in
  if dim0 =? 0 then sint_at 0 4 raw =? 348
  else (1 <=? dim0) && (dim0 <=? 7).

(** The repairs of [check_fix].  [pixdim[1..3]]: a zero becomes 1, and when
    one of the three is negative all three lose their sign. *)
Definition fix_pixdims (raw : list byte) : list byte :=
  let at_ (k : nat) : nat := (76 + 4 * k)%nat in
  let spat := [1; 2; 3]%nat in
  let any_negative := existsb (fun k => is_negative (f32_at (at_ k) raw)) spat in
  let ones :=
    foldr (fun k b => if is_zero (f32_at (at_ k) raw)
                      then poke (at_ k) (int_to_bytes 4 f32_bits_one) b else b)
          raw spat in
  if any_negative then
    foldr (fun k b => poke (at_ k)
                        (int_to_bytes 4 (Z.land (int_at (at_ k) 4 b) 0x7FFFFFFF)) b)
          ones spat
  else ones.

(** [pixdim[0]], the qfac, becomes 1 unless it is 1 or -1. *)
Definition fix_qfac (raw : list byte) : list byte :=
  let q := f32_at 76 raw in
  if SFeqb q f64_one || SFeqb q (SFopp f64_one) then raw
  else poke 76 (int_to_bytes 4 f32_bits_one) raw.

(** The data offset of a single-file header must be 0 or at least 352. *)
Definition offset_too_low (raw : list byte) : bool :=
  let off := f32_at 108 raw in
  has_magic magic_single raw && negb (is_zero off)
  && SFltb off (f64_normalize 352 0 false).

(** [dim[1 .. dim[0]]], or [(0,)] when [dim[0]] is 0 *)
Definition declared_dims (raw : list byte) : list Z :=
  let n := sint_at 40 2 raw in
  if n =? 0 then [0]
  else (fun k => sint_at (40 + 2 * k) 2 raw) <$> seq 1 (Z.to_nat n).

(** A shape that starts with (-1, 1, 1) has its first extent in [glmin]. *)
Definition large_vector (raw : list byte) : bool :=
  bool_decide (take 3 (declared_dims raw) = [-1; 1; 1]).

(** The construction of a header: the guess of the byte order, the checks
    with their repairs ([sizeof_hdr], [bitpix], [pixdim]), and the first
    reading of the data offset and the shape.  An unknown data type, a wrong
    magic and a data offset between 0 and 352 are errors of the checks; a
    data offset that is NaN or infinite, and a large-vector shape without
    its length, are errors of the reading. *)
Definition init (raw : list byte) : result (list byte) :=
  let off := f32_at 108 raw in
  if negb (guessed_native raw) then raise HeaderDataError
  else if has_magic magic_single raw
          && match off with S754_infinity true => true | _ => false end
    then raise OverflowError
  else
    match dtype_of_code (sint_at 70 2 raw) with
    | None => raise HeaderDataError
    | Some dt =>
        if negb (has_magic magic_single raw || has_magic magic_pair raw)
          then raise HeaderDataError
        else if offset_too_low raw then raise HeaderDataError
        else if negb ((0 <=? sint_at 252 2 raw) && (sint_at 252 2 raw <=? 4))
          then raise HeaderDataError
        else if negb ((1 <=? sint_at 254 2 raw) && (sint_at 254 2 raw <=? 4))
          then raise HeaderDataError
        else
          match off with
          | S754_nan => raise ValueError
          | S754_infinity _ => raise OverflowError
          | _ =>
              if large_vector raw && (sint_at 144 4 raw =? 0)
                then raise HeaderDataError
              else
                inr (fix_qfac (fix_pixdims
                       (poke 72 (int_to_bytes 2 (8 * itemsize dt))
                          (poke 0 (int_to_bytes 4 348) raw))))
          end
    end.

Definition data_offset (raw : list byte) : Z := trunc (f32_at 108 raw).

Definition data_shape (raw : list byte) : list Z :=
  let shape := declared_dims raw in
  if large_vector raw then sint_at 144 4 raw :: 1 :: 1 :: drop 3 shape
  else shape.

Definition data_dtype (raw : list byte) : dtype :=
  default uint8 (dtype_of_code (sint_at 70 2 raw)).

Definition srow (off : nat) (raw : list byte) : list spec_float :=
  (fun k => f32_at (off + 4 * k) raw) <$> seq 0 4.

Definition sform (raw : list byte) : affine :=
  [srow 280 raw; srow 296 raw; srow 312 raw; [f64_zero; f64_zero; f64_zero; f64_one]].

Definition slope_inter (raw : list byte) : option (spec_float * spec_float) :=
  let slope := f32_at 112 raw in
  let inter := f32_at 116 raw in
  match slope with
  | S754_finite _ _ _ =>
      if SFeqb slope f64_one && SFeqb inter f64_zero then None
      else Some (slope, inter)
  | _ => None
  end.

Definition items (raw : list byte) : list (string * list byte) :=
  (fun f => (f.1, bytes_of (f.2).1 (f.2).2 raw)) <$> layout.

(** [bs.rstrip(b"\x00")] *)
Fixpoint rstrip_nul (bs : list byte) : list byte :=
  match bs with
  | [] => []
  | b :: bs' =>
      match rstrip_nul bs' with
      | [] => if Byte.eqb b x00 then [] else [b]
      | r => b :: r
      end
  end.

Definition integral (x : spec_float) : bool :=
  match x with
  | S754_zero _ => true
  | S754_finite _ m e => (0 <=? e) || (Z.pos m mod 2 ^ (- e) =? 0)
  | _ => false
  end.

(** The reader of extensions.  [size] is the number of bytes between the
    extension flag and the data offset (rounded down; [whole] tells whether
    it is a whole number, since -1 means reading to the end of the file).
    While [size] is at least 16 or is -1, a record is read from the stream:
    eight bytes holding [esize] and [ecode], then [esize - 8] bytes of
    content, kept without their trailing zero bytes.  The stream is the rest
    of the file: a record may run past the data offset.  A read of a
    negative length other than -1 is a [ValueError] of the file object.
    Every record takes at least eight bytes from the stream, which bounds
    the number of rounds. *)
Fixpoint read_exts (fuel : nat) (size : Z) (whole : bool) (bs : list byte)
    : result (list (Z * list byte)) :=
  match fuel with
  | O => inr []
  | S fuel' =>
      if (16 <=? size) || (whole && (size =? -1)) then
        let ext_def := take 8 bs in
        if bool_decide (length ext_def = 0%nat) && (size =? -1) then inr []
        else if negb (bool_decide (length ext_def = 8%nat)) then raise HeaderDataError
        else
          let esize := signed 32 (int_from_bytes (take 4 ext_def)) in
          let ecode := signed 32 (int_from_bytes (drop 4 ext_def)) in
          if esize - 8 <? -1 then raise ValueError
          else
            let evalue :=
              if esize - 8 =? -1 then drop 8 bs
              else take (Z.to_nat (esize - 8)) (drop 8 bs) in
            if negb (Z.of_nat (length evalue) =? esize - 8) then raise HeaderDataError
            else
              rest ← read_exts fuel' (size - esize) whole
                       (drop (8 + Z.to_nat (esize - 8)) bs);
              mret ((ecode, rstrip_nul evalue) :: rest)
      else inr []
  end.

Definition exts (raw : list byte) (stream : list byte) : result (list (Z * list byte)) :=
  read_exts (S (length stream)) (data_offset raw - 352)
    (integral (f32_at 108 raw)) stream.

Definition scaling (slope inter : spec_float) (x : scalar) : spec_float :=
  f64_add (f64_mul (to_float64 x) slope) inter.

#[global] Instance parser : HeaderParser := {|
  header := list byte;
  extension := Z * list byte;
  wrapstruct_init := init;
  get_data_offset := data_offset;
  get_data_shape := data_shape;
  get_data_dtype := data_dtype;
  get_best_affine := sform;
  get_slope_inter := slope_inter;
  header_items := items;
  exts_from_fileobj := exts;
  apply_read_scaling := scaling
|}.

(** *** Building test files *)

(** A header for the given shape, data type code, data offset (as the bits
    of a binary32 value) and sform rows (as bits), with [bitpix] matching the
    data type, voxel sizes of 1 and no scaling. *)
Definition make_header (dims : list Z) (code : Z) (vox_offset_bits : Z)
    (rows : list (list Z)) : list byte :=
  let put_dims buf :=
    foldr (fun kd b => poke (40 + 2 * kd.1) (int_to_bytes 2 kd.2) b) buf
          (zip (seq 1 (length dims)) dims) in
  let put_rows buf :=
    foldr (fun kr b => poke (280 + 16 * kr.1) (flat_map (int_to_bytes 4) kr.2) b) buf
          (zip (seq 0 3) rows) in
  let bitpix := match dtype_of_code code with Some dt => 8 * itemsize dt | None => 0 end in
  put_rows (put_dims
    (poke 0 (int_to_bytes 4 348)
    (poke 40 (int_to_bytes 2 (Z.of_nat (length dims)))
    (poke 70 (int_to_bytes 2 code)
    (poke 72 (int_to_bytes 2 bitpix)
    (poke 76 (flat_map (int_to_bytes 4) (repeat f32_bits_one 4))
    (poke 108 (int_to_bytes 4 vox_offset_bits)
    (poke 254 (int_to_bytes 2 1)
    (poke 344 magic_single (repeat x00 348)))))))))).

Definition identity_rows : list (list Z) :=
  [[f32_bits_one; 0; 0; 0]; [0; f32_bits_one; 0; 0]; [0; 0; f32_bits_one; 0]].

Definition identity_affine : affine :=
  [[f64_one; f64_zero; f64_zero; f64_zero];
   [f64_zero; f64_one; f64_zero; f64_zero];
   [f64_zero; f64_zero; f64_one; f64_zero];
   [f64_zero; f64_zero; f64_zero; f64_one]].

(** The synthetic file of the scenario: header of 348 bytes, four zero
    bytes, then 64 sequential [int16] values from the data offset 352. *)
Definition synthetic_file : list byte :=
  make_header [4; 4; 4] 4 0x43B00000 identity_rows
  ++ [x00; x00; x00; x00]
  ++ flat_map (int_to_bytes 2) (zrange 64).

Definition one_file (name : string) (bs : list byte) : world :=
  {| fs := {[ name := {| content := bs; mode := Readable |} ]}; handles := ∅ |}.

End MiniNifti1.

(** ** Well-formed image files *)

(** The buffer of the loader after the read: the whole file as [uint8]. *)
Definition filled (bs : list byte) : ndarray :=
  {| nd_base := bs;
     nd_offset := 0;
     nd_dtype := uint8;
     nd_shape := [Z.of_nat (length bs)];
     nd_strides := [1] |}.

Section Validity.
Context {parser : HeaderParser}.

(** A well-formed image file of the data model: the file is there and can
    be read, its first 348 bytes parse as a header, the data offset is a
    byte position, the extents are positive, and the payload after the
    data offset holds exactly the declared elements. *)
Definition wellformed_image_file (w : world) (filename : string)
    (node : filenode) (h : header) : Prop :=
  fs w !! filename = Some node ∧
  mode node = Readable ∧
  Nifti1Header_init (take sizeof_hdr (content node)) = inr h ∧
  0 ≤ get_data_offset h ∧
  Forall (fun d => 0 < d) (get_data_shape h) ∧
  prod (get_data_shape h) * itemsize (get_data_dtype h)
    = Z.of_nat (length (content node)) - get_data_offset h.

(** A valid image file loads through both paths: it is well-formed and
    the reference parser, which also reads the header extensions, accepts
    it. *)
Definition valid_image_file (w : world) (filename : string)
    (node : filenode) (hdr : Nifti1Header) : Prop :=
  wellformed_image_file w filename node (structarr hdr) ∧
  Nifti1Header_from_fileobj (content node) = inr hdr.

(** The statements of [nifti_gpu_load] after the [with] block, as a
    function of the filled buffer. *)
Definition decode_image (image : ndarray) : result (ndarray * gmap string pyobj) :=
  header_slice ← getslice image None (Some 348);
  let header_bytes := cp_asnumpy header_slice in
  hdr ← Nifti1Header_from_fileobj (BytesIO header_bytes);
  let data_offset := get_data_offset (structarr hdr) in
  let data_shape := get_data_shape (structarr hdr) in
  let data_dtype := get_data_dtype (structarr hdr) in
  let affine := get_best_affine (structarr hdr) in
  let meta := dict_of_items (prod_map id Field <$> header_items (structarr hdr)) in
  let meta := <["affine" := Matrix affine]> meta in
  payload ← getslice image (Some data_offset) None;
  typed ← ndarray_view payload data_dtype;
  arr ← ndarray_reshape_F typed data_shape;
  mret (arr, meta).

(** The metadata dictionary the loader builds from a header. *)
Definition metadata (h : header) : gmap string pyobj :=
  <["affine" := Matrix (get_best_affine h)]>
    (dict_of_items (prod_map id Field <$> header_items h)).

(** The item of the payload at column-major position [k]. *)
Definition payload_item (node : filenode) (h : header) (k : Z) : scalar :=
  decode (get_data_dtype h)
    (take (Z.to_nat (itemsize (get_data_dtype h)))
       (drop (Z.to_nat (get_data_offset h + itemsize (get_data_dtype h) * k))
          (content node))).

(** The voxels a scaled or unscaled read delivers for one raw element *)
Definition fdata_item (h : header) (x : scalar) : spec_float :=
  match get_slope_inter h with
  | None => to_float64 x
  | Some (slope, inter) => apply_read_scaling slope inter x
  end.

End Validity.

(** A path refers to an existing readable file. *)
Definition readable_file (w : world) (filename : string) : Prop :=
  exists node, fs w !! filename = Some node /\ mode node = Readable.

(** The three steps of the return expression, on the filled buffer. *)
Definition reinterpret (bs : list byte) (off : Z) (dt : dtype) (shape : list Z)
    : result ndarray :=
  payload ← getslice (filled bs) (Some off) None;
  typed ← ndarray_view payload dt;
  ndarray_reshape_F typed shape.

(** A float with the given sign, possibly zero or infinite, but a number. *)
Definition has_sign (s : bool) (x : spec_float) : Prop :=
  match x with
  | S754_zero s' | S754_infinity s' | S754_finite s' _ _ => s' = s
  | S754_nan => False
  end.

(** ** The files of the examples *)

Definition synthetic_world : world :=
  MiniNifti1.one_file "synthetic.nii" MiniNifti1.synthetic_file.

Definition synthetic_node : filenode :=
  {| content := MiniNifti1.synthetic_file; mode := Readable |}.

Definition synthetic_header : list byte :=
  MiniNifti1.make_header [4; 4; 4] 4 0x43B00000 MiniNifti1.identity_rows.

Definition synthetic_nifti1header : Nifti1Header :=
  {| structarr := synthetic_header; extensions := [] |}.

(** A file whose payload is two bytes short of what the header declares *)
Definition short_payload_file : list byte :=
  synthetic_header ++ [x00; x00; x00; x00] ++ flat_map (int_to_bytes 2) (zrange 63).

Definition short_payload_node : filenode :=
  {| content := short_payload_file; mode := Readable |}.

(** A file with the header of the synthetic file, the extension flag set and
    another payload *)
Definition other_file : list byte :=
  synthetic_header ++ [x01; x00; x00; x00] ++ flat_map (int_to_bytes 2) (repeat 7 64).

Definition other_node : filenode := {| content := other_file; mode := Readable |}.

Definition other_world : world := MiniNifti1.one_file "other.nii" other_file.

(** A two-voxel [float32] image whose second voxel is NaN, and an [int16]
    image whose sform has a NaN entry *)
Definition nan_file : list byte :=
  MiniNifti1.make_header [2] 16 0x43B00000 MiniNifti1.identity_rows
  ++ [x00; x00; x00; x00]
  ++ int_to_bytes 4 0x3F800000 ++ int_to_bytes 4 0x7FC00000.

Definition nan_node : filenode := {| content := nan_file; mode := Readable |}.

Definition nan_world : world := MiniNifti1.one_file "nan.nii" nan_file.

Definition nan_header : Nifti1Header :=
  {| structarr := MiniNifti1.make_header [2] 16 0x43B00000 MiniNifti1.identity_rows;
     extensions := [] |}.

Definition nan_affine_header : list byte :=
  MiniNifti1.make_header [4; 4; 4] 4 0x43B00000
    [[0x7FC00000; 0; 0; 0]; [0; 0x3F800000; 0; 0]; [0; 0; 0x3F800000; 0]].

Definition nan_affine_file : list byte :=
  nan_affine_header ++ [x00; x00; x00; x00] ++ flat_map (int_to_bytes 2) (zrange 64).

Definition nan_affine_node : filenode :=
  {| content := nan_affine_file; mode := Readable |}.

Definition nan_affine_world : world := MiniNifti1.one_file "nanaff.nii" nan_affine_file.

Definition nan_affine_nifti1header : Nifti1Header :=
  {| structarr := nan_affine_header; extensions := [] |}.

(** A world whose only file opens but cannot be read *)
Definition faulty_world : world :=
  {| fs := {[ "bad.nii" := {| content := MiniNifti1.synthetic_file; mode := Faulty |} ]};
     handles := ∅ |}.

(** A reference array of shape (1,) and an accelerated array of shape (3,) *)
Definition ones1 : farray :=
  {| f_shape := [1]; f_data := [MiniNifti1.f64_one] |}.

Definition ones3 : ndarray :=
  {| nd_base := [x01; x01; x01]; nd_offset := 0; nd_dtype := uint8;
     nd_shape := [3]; nd_strides := [1] |}.

(** A column of shape (2, 1) holding 1.0 and 2.0 *)
Definition column21 : farray :=
  {| f_shape := [2; 1];
     f_data := [MiniNifti1.f64_one; f64_normalize 2 0 false] |}.

(** ** Files at the edges of the format *)

(** A header that declares zero voxels and a data offset of 1000, in a file
    that ends right after the extension flag *)
Definition empty_shape_header : list byte :=
  MiniNifti1.make_header [0] 2 0x447A0000 MiniNifti1.identity_rows.

Definition empty_shape_file : list byte := empty_shape_header ++ [x00; x00; x00; x00].

Definition empty_shape_node : filenode :=
  {| content := empty_shape_file; mode := Readable |}.

Definition empty_shape_world : world := MiniNifti1.one_file "empty.nii" empty_shape_file.

(** A header whose only extent is -1, followed by ten [uint8] voxels *)
Definition infer_header : list byte :=
  MiniNifti1.make_header [-1] 2 0x43B00000 MiniNifti1.identity_rows.

Definition infer_file : list byte :=
  infer_header ++ [x00; x00; x00; x00] ++ int_to_bytes 10 0x0a090807060504030201.

Definition infer_node : filenode := {| content := infer_file; mode := Readable |}.

Definition infer_world : world := MiniNifti1.one_file "infer.nii" infer_file.

(** The synthetic file with two more bytes after the voxels *)
Definition trailing_file : list byte := MiniNifti1.synthetic_file ++ [x00; x00].

Definition trailing_node : filenode := {| content := trailing_file; mode := Readable |}.

Definition trailing_world : world := MiniNifti1.one_file "trailing.nii" trailing_file.

(** A file whose extension flag is set, whose data offset 368 leaves room
    for sixteen bytes of extensions, and whose extension record is broken:
    its size field is zero, so that the reader asks the file for a content
    of -8 bytes *)
Definition bad_extension_header : list byte :=
  MiniNifti1.make_header [4; 4; 4] 4 0x43B80000 MiniNifti1.identity_rows.

Definition bad_extension_file : list byte :=
  bad_extension_header ++ [x01; x00; x00; x00] ++ repeat x00 16
  ++ flat_map (int_to_bytes 2) (zrange 64).

Definition bad_extension_node : filenode :=
  {| content := bad_extension_file; mode := Readable |}.

Definition bad_extension_world : world :=
  MiniNifti1.one_file "badext.nii" bad_extension_file.

(** A file with one byte after the payload: the bytes after the data offset
    are not a whole number of two-byte items *)
Definition partial_item_file : list byte := MiniNifti1.synthetic_file ++ [x00].

Definition partial_item_node : filenode :=
  {| content := partial_item_file; mode := Readable |}.

Definition partial_item_world : world :=
  MiniNifti1.one_file "partial.nii" partial_item_file.

(** ** Checks of the model on small inputs *)

Example decode_int16_minus_two : decode int16 [xfe; xff] = SInt (-2).
Proof. reflexivity. Qed.

Example decode_float32_one :
  decode float32 [x00; x00; x80; x3f] = SFloat MiniNifti1.f64_one.
Proof. vm_compute. reflexivity. Qed.

Example decode_float32_nan : decode float32 [x00; x00; xc0; x7f] = SFloat S754_nan.
Proof. vm_compute. reflexivity. Qed.

Example decode_float64_one :
  decode float64 [x00; x00; x00; x00; x00; x00; xf0; x3f] = SFloat MiniNifti1.f64_one.
Proof. vm_compute. reflexivity. Qed.

Example to_float64_rounds :
  to_float64 (SInt (2 ^ 53 + 1)) = to_float64 (SInt (2 ^ 53)).
Proof. vm_compute. reflexivity. Qed.

Example f_linear_first_index_fastest : f_linear [4; 4; 4] [1; 2; 3] = Some 57.
Proof. reflexivity. Qed.

Example f_strides_int16 : f_strides 2 [4; 4; 4] = [2; 8; 32].
Proof. reflexivity. Qed.

Example slice_negative_start : slice_indices 10 (Some (-3)) None = (7, 10).
Proof. reflexivity. Qed.

Example resolve_shape_infers : resolve_shape 12 [3; -1] = inr [3; 4].
Proof. reflexivity. Qed.

Example resolve_shape_infers_any_negative : resolve_shape 12 [3; -2] = inr [3; 4].
Proof. reflexivity. Qed.

Example resolve_shape_two_unknown : resolve_shape 12 [-1; -1] = inl ValueError.
Proof. reflexivity. Qed.

Example subscript_row :
  subscript {| nd_base := [x01; x02; x03; x04; x05; x06]; nd_offset := 0;
               nd_dtype := uint8; nd_shape := [2; 3]; nd_strides := [1; 2] |} [1]
  = inr (inr {| nd_base := [x01; x02; x03; x04; x05; x06]; nd_offset := 1;
                nd_dtype := uint8; nd_shape := [3]; nd_strides := [2] |}).
Proof. reflexivity. Qed.

Example subscript_element :
  subscript {| nd_base := [x01; x02; x03; x04; x05; x06]; nd_offset := 0;
               nd_dtype := uint8; nd_shape := [2; 3]; nd_strides := [1; 2] |} [1; -1]
  = inr (inl (SInt 6)).
Proof. reflexivity. Qed.

Example check_fix_repairs :
  let raw := MiniNifti1.poke 72 [x00; x00]
               (MiniNifti1.poke 76 (repeat x00 16)
                  (MiniNifti1.make_header [4; 4; 4] 4 0x43B00000 MiniNifti1.identity_rows)) in
  MiniNifti1.init raw
  = inr (MiniNifti1.make_header [4; 4; 4] 4 0x43B00000 MiniNifti1.identity_rows).
Proof. vm_compute. reflexivity. Qed.

Example data_offset_too_low :
  MiniNifti1.init (MiniNifti1.make_header [4; 4; 4] 4 0x43800000 MiniNifti1.identity_rows)
  = inl HeaderDataError.
Proof. vm_compute. reflexivity. Qed.

Example data_offset_infinite :
  MiniNifti1.init (MiniNifti1.make_header [4; 4; 4] 4 0x7F800000 MiniNifti1.identity_rows)
  = inl OverflowError.
Proof. vm_compute. reflexivity. Qed.

Example extension_record_read :
  MiniNifti1.exts
    (MiniNifti1.make_header [4; 4; 4] 4 0x43B80000 MiniNifti1.identity_rows)
    (int_to_bytes 4 16 ++ int_to_bytes 4 4 ++ [x61; x62; x00; x00; x00; x00; x00; x00])
  = inr [(4, [x61; x62])].
Proof. vm_compute. reflexivity. Qed.

Example broadcast_compatible : broadcast_shapes [4; 1; 3] [5; 1] = Some [4; 5; 3].
Proof. reflexivity. Qed.

Example broadcast_incompatible : broadcast_shapes [2] [3] = None.
Proof. reflexivity. Qed.

Example isclose_nan : isclose default_rtol default_atol S754_nan S754_nan = false.
Proof. reflexivity. Qed.

Example synthetic_file_length : length MiniNifti1.synthetic_file = 480%nat.
Proof. vm_compute. reflexivity. Qed.

(** ** Facts about doubles *)

Section FloatFacts.
Variables prec emax : Z.

Lemma iter_pos_invariant {A} (P : A -> Prop) (f : A -> A) :
  (forall x, P x -> P (f x)) -> forall n x, P x -> P (SpecFloat.iter_pos f n x).
Proof.
  intros Hf. induction n as [n IH | n IH |]; intros x Hx; simpl; auto.
Qed.

Lemma shr_1_nonneg mrs : 0 ≤ shr_m mrs -> 0 ≤ shr_m (shr_1 mrs).
Proof.
  destruct mrs as [m r s]. simpl. destruct m as [| p | p]; simpl.
  - lia.
  - intros _. destruct p; simpl; lia.
  - lia.
Qed.

Lemma shr_nonneg mrs e n : 0 ≤ shr_m mrs -> 0 ≤ shr_m (shr mrs e n).1.
Proof.
  intros H. unfold shr. destruct n as [| p | p]; simpl; auto.
  apply (iter_pos_invariant (fun r => 0 ≤ shr_m r)); auto using shr_1_nonneg.
Qed.

Lemma shr_record_of_loc_m m l : shr_m (shr_record_of_loc m l) = m.
Proof. destruct l as [| []]; reflexivity. Qed.

Lemma shr_fexp_nonneg m e l : 0 ≤ m -> 0 ≤ shr_m (shr_fexp prec emax m e l).1.
Proof.
  intros H. unfold shr_fexp. apply shr_nonneg. now rewrite shr_record_of_loc_m.
Qed.

Lemma round_nearest_even_nonneg m l : 0 ≤ m -> 0 ≤ round_nearest_even m l.
Proof.
  intros H. unfold round_nearest_even.
  destruct l as [| []]; try destruct (Z.even m); lia.
Qed.

Lemma binary_round_aux_sign s m e l :
  0 ≤ m -> has_sign s (binary_round_aux prec emax s m e l).
Proof.
  intros H. unfold binary_round_aux.
  pose proof (shr_fexp_nonneg m e l H) as H1.
  destruct (shr_fexp prec emax m e l) as [mrs' e']. simpl in H1.
  pose proof (shr_fexp_nonneg _ e' loc_Exact
                (round_nearest_even_nonneg _ (loc_of_shr_record mrs') H1)) as H2.
  destruct (shr_fexp prec emax _ e' loc_Exact) as [mrs'' e'']. simpl in H2.
  destruct (shr_m mrs'') as [| p | p]; simpl; try lia; auto.
  destruct (e'' <=? emax - prec); reflexivity.
Qed.

Lemma binary_round_sign s m e : has_sign s (binary_round prec emax s m e).
Proof.
  unfold binary_round. destruct (shl_align _ _ _) as [mz ez].
  apply binary_round_aux_sign. lia.
Qed.

Lemma binary_normalize_number m e s : is_nan (binary_normalize prec emax m e s) = false.
Proof.
  destruct m as [| p | p]; simpl; auto.
  - pose proof (binary_round_sign false p e) as H.
    destruct (binary_round prec emax false p e); simpl in *; tauto.
  - pose proof (binary_round_sign true p e) as H.
    destruct (binary_round prec emax true p e); simpl in *; tauto.
Qed.

Lemma SFsub_diag s m e :
  SFsub prec emax (S754_finite s m e) (S754_finite s m e) = S754_zero false.
Proof. simpl. now rewrite Z.sub_diag. Qed.

Lemma SFmul_nonneg mr er x :
  has_sign false x ->
  has_sign false (SFmul prec emax (S754_finite false mr er) x).
Proof.
  destruct x as [s | s | | s m e]; simpl; intros H; subst; auto.
  apply binary_round_aux_sign. lia.
Qed.

Lemma SFadd_nonneg ma ea x :
  has_sign false x ->
  has_sign false (SFadd prec emax (S754_finite false ma ea) x).
Proof.
  destruct x as [s | s | | s m e]; simpl; intros H; subst; auto.
  apply binary_round_sign.
Qed.

Lemma SFleb_zero_nonneg s x : has_sign false x -> SFleb (S754_zero s) x = true.
Proof. destruct x as [? | ? | | ? ? ?]; simpl; intros H; subst; auto. Qed.

Lemma SFeqb_refl x : is_nan x = false -> SFeqb x x = true.
Proof.
  destruct x as [s | s | | s m e]; simpl; try discriminate; intros _.
  - reflexivity.
  - unfold SFeqb. simpl. now destruct s.
  - unfold SFeqb. simpl. rewrite Z.compare_refl.
    assert (Pos.compare_cont Eq m m = Eq) as -> by apply Pos.compare_cont_refl.
    now destruct s.
Qed.

End FloatFacts.

Lemma to_float64_number x : scalar_is_nan x = false -> is_nan (to_float64 x) = false.
Proof.
  destruct x as [z | f]; simpl; auto. intros _. apply binary_normalize_number.
Qed.

(** [np.isclose(x, x)] holds for every double except NaN, whatever the
    (positive, finite) tolerances. *)
Lemma isclose_refl mr er ma ea x :
  is_nan x = false ->
  isclose (S754_finite false mr er) (S754_finite false ma ea) x x = true.
Proof.
  intros Hx. unfold isclose.
  destruct x as [s | s | | s m e]; simpl in Hx; try discriminate.
  - simpl. now destruct s.
  - simpl. apply SFeqb_refl. reflexivity.
  - cbn [is_finite andb]. unfold f64_sub. rewrite SFsub_diag. cbn [SFabs].
    apply SFleb_zero_nonneg. apply SFadd_nonneg, SFmul_nonneg. reflexivity.
Qed.

(** ** Facts about buffers and views *)

Lemma zrange_lookup (n : Z) (k : nat) :
  (k < Z.to_nat n)%nat -> zrange n !! k = Some (Z.of_nat k).
Proof.
  intros H. unfold zrange. rewrite list_lookup_fmap.
  rewrite lookup_seq_lt by lia. reflexivity.
Qed.

Lemma zrange_bounds (n i : Z) : i ∈ zrange n -> 0 ≤ i < n.
Proof.
  unfold zrange. intros H. apply list_elem_of_fmap in H as (k & -> & Hk).
  apply elem_of_seq in Hk. lia.
Qed.

Lemma norm_index_in (d i : Z) : 0 ≤ i < d -> norm_index d i = Some i.
Proof.
  intros H. unfold norm_index.
  destruct (Z.leb_spec 0 i), (Z.ltb_spec i d); simpl; auto; lia.
Qed.

Lemma norm_index_range (d i i' : Z) : norm_index d i = Some i' -> 0 ≤ i' < d.
Proof.
  unfold norm_index.
  destruct (Z.leb_spec 0 i), (Z.ltb_spec i d), (Z.leb_spec (- d) i), (Z.ltb_spec i 0);
    simpl; intros [= <-]; lia.
Qed.

(** The bytes of a one-dimensional [uint8] window at the start of a buffer *)
Lemma tobytes_prefix (bs : list byte) (k : Z) :
  0 ≤ k ≤ Z.of_nat (length bs) ->
  tobytes {| nd_base := bs; nd_offset := 0; nd_dtype := uint8;
             nd_shape := [k]; nd_strides := [1] |}
  = take (Z.to_nat k) bs.
Proof.
  intros Hk. unfold tobytes. cbn [nd_shape ndindex].
  assert (forall n : nat, (n ≤ Z.to_nat k)%nat ->
    flat_map (bytes_at {| nd_base := bs; nd_offset := 0; nd_dtype := uint8;
                          nd_shape := [k]; nd_strides := [1] |})
      (flat_map (fun i => cons i <$> [[]]) (Z.of_nat <$> seq 0 n)) = take n bs) as Hn.
  { induction n as [| n IH]; intros Hle.
    - reflexivity.
    - rewrite seq_S, fmap_app, !flat_map_app, IH by lia. simpl.
      destruct (lookup_lt_is_Some_2 bs n) as [x Hx]; [lia |].
      rewrite (take_S_r _ _ _ Hx). f_equal.
      unfold bytes_at. cbn [nd_shape nd_strides item_offset].
      rewrite norm_index_in by lia. unfold item_bytes. cbn.
      replace (Z.to_nat (0 + (Z.of_nat n * 1 + 0))) with n by lia.
      rewrite (drop_S _ _ _ Hx). reflexivity. }
  apply Hn. lia.
Qed.

Lemma getslice_filled_stop (bs : list byte) (stop : Z) :
  0 ≤ stop ->
  getslice (filled bs) None (Some stop)
  = inr {| nd_base := bs; nd_offset := 0; nd_dtype := uint8;
           nd_shape := [Z.min stop (Z.of_nat (length bs))]; nd_strides := [1] |}.
Proof.
  intros H. unfold getslice, filled, slice_indices, clamp_index. cbn.
  destruct (Z.ltb_spec stop 0); [lia |]. do 2 f_equal. f_equal. lia.
Qed.

Lemma getslice_filled_start (bs : list byte) (start : Z) :
  0 ≤ start ->
  getslice (filled bs) (Some start) None
  = inr {| nd_base := bs; nd_offset := Z.min start (Z.of_nat (length bs));
           nd_dtype := uint8;
           nd_shape := [Z.of_nat (length bs) - Z.min start (Z.of_nat (length bs))];
           nd_strides := [1] |}.
Proof.
  intros H. unfold getslice, filled, slice_indices, clamp_index. cbn.
  destruct (Z.ltb_spec start 0); [lia |]. f_equal. f_equal; [lia |]. f_equal. lia.
Qed.

(** The stream the parser is given holds the first 348 bytes of the file,
    or the whole file when it is shorter. *)
Lemma header_stream (bs : list byte) :
  exists a, getslice (filled bs) None (Some 348) = inr a
            /\ BytesIO (cp_asnumpy a) = take sizeof_hdr bs.
Proof.
  eexists. split; [apply getslice_filled_stop; lia |].
  unfold BytesIO, cp_asnumpy. cbn [nd_shape nd_dtype itemsize c_strides f_strides rev app].
  set (k := Z.min 348 (Z.of_nat (length bs))).
  rewrite (tobytes_prefix bs k) by lia.
  rewrite tobytes_prefix.
  - rewrite take_take. unfold sizeof_hdr, k.
    destruct (Z.le_ge_cases 348 (Z.of_nat (length bs))).
    + replace (Z.to_nat (Z.min 348 (Z.of_nat (length bs)))) with 348%nat by lia.
      now rewrite Nat.min_id.
    + replace (Z.to_nat (Z.min 348 (Z.of_nat (length bs)))) with (length bs) by lia.
      rewrite Nat.min_id. rewrite !take_ge by lia. reflexivity.
  - rewrite length_take. lia.
Qed.

(** ** Facts about the loader *)

Section LoaderFacts.
Context {parser : HeaderParser}.

Lemma world_eta (w : world) : {| fs := fs w; handles := handles w |} = w.
Proof. now destruct w. Qed.

(** The block [with kvikio.CuFile(...) as f: f.read(image)] on a file the
    loader has just measured. *)
Lemma with_read_readable w filename node :
  fs w !! filename = Some node -> mode node = Readable ->
  with_CuFile filename
    (fun f => CuFile_read f (cp_empty (Z.of_nat (length (content node))) uint8)) w
  = (inr (filled (content node)), w).
Proof.
  intros Hfs Hmode. unfold with_CuFile, CuFile_open. rewrite Hfs, Hmode.
  unfold CuFile_read. cbn [handles fs]. rewrite lookup_insert_eq, Hfs, Hmode.
  cbn [CuFile_close handles fs].
  rewrite delete_insert_id
    by (apply not_elem_of_dom, is_fresh).
  rewrite world_eta. f_equal. unfold filled, cp_empty, nd_size. cbn.
  replace (Z.to_nat (Z.of_nat (length (content node)) * 1 * 1))
    with (length (content node)) by lia.
  replace (Z.to_nat (Z.of_nat (length (content node)) * 1))
    with (length (content node)) by lia.
  change (Z.to_nat 0) with 0%nat. rewrite take_0.
  rewrite (take_ge (content node)) by lia.
  rewrite drop_ge by (rewrite repeat_length; lia).
  now rewrite app_nil_r.
Qed.

Lemma with_read_faulty w filename node buf :
  fs w !! filename = Some node -> mode node = Faulty ->
  with_CuFile filename (fun f => CuFile_read f buf) w = (inl (OSError EIO), w).
Proof.
  intros Hfs Hmode. unfold with_CuFile, CuFile_open. rewrite Hfs, Hmode.
  unfold CuFile_read. cbn [handles fs]. rewrite lookup_insert_eq, Hfs, Hmode.
  cbn [CuFile_close handles fs].
  rewrite delete_insert_id by (apply not_elem_of_dom, is_fresh).
  now rewrite world_eta.
Qed.

Lemma with_read_denied {A} w filename node (body : nat -> M A) :
  fs w !! filename = Some node -> mode node = Denied ->
  with_CuFile filename body w = (inl (OSError EACCES), w).
Proof.
  intros Hfs Hmode. unfold with_CuFile, CuFile_open. now rewrite Hfs, Hmode.
Qed.

(** The [with] block restores the handle table whether its body returns or
    raises. *)
Lemma with_CuFile_releases {A} w filename (body : nat -> M A) :
  (forall f w', handles (body f w').2 = handles w') ->
  handles (with_CuFile filename body w).2 = handles w.
Proof.
  intros Hbody. unfold with_CuFile, CuFile_open.
  destruct (fs w !! filename) as [node |]; [| reflexivity].
  assert (forall w1 f, w1 = {| fs := fs w; handles := <[f := filename]> (handles w) |} ->
            f = fresh (dom (handles w)) ->
            handles (let '(r, w2) := body f w1 in
                     match CuFile_close f w2 with
                     | (inl e, w3) => (inl e, w3)
                     | (inr _, w3) => (r, w3)
                     end).2 = handles w) as Hblock.
  { intros w1 f -> ->. specialize (Hbody (fresh (dom (handles w)))
      {| fs := fs w; handles := <[fresh (dom (handles w)) := filename]> (handles w) |}).
    destruct (body _ _) as [r w2]. cbn in *. rewrite Hbody.
    apply delete_insert_id, not_elem_of_dom, is_fresh. }
  destruct (mode node); try reflexivity; now apply Hblock.
Qed.

(** On a stream of at most 348 bytes the parser never sees extensions. *)
Lemma from_fileobj_short (bs : list byte) :
  (length bs ≤ sizeof_hdr)%nat ->
  Nifti1Header_from_fileobj bs
  = (h ← Nifti1Header_init bs; mret {| structarr := h; extensions := [] |}).
Proof.
  intros Hlen. unfold Nifti1Header_from_fileobj.
  rewrite (take_ge bs) by exact Hlen. rewrite (drop_ge bs) by exact Hlen.
  destruct (Nifti1Header_init bs); reflexivity.
Qed.

Lemma from_fileobj_structarr (bs : list byte) (hdr : Nifti1Header) :
  Nifti1Header_from_fileobj bs = inr hdr ->
  Nifti1Header_init (take sizeof_hdr bs) = inr (structarr hdr).
Proof.
  unfold Nifti1Header_from_fileobj.
  destruct (Nifti1Header_init (take sizeof_hdr bs)) as [e | h]; cbn; [discriminate |].
  destruct (take 4 (drop _ bs)) as [| b0 [| b1 [| b2 [| b3 l]]]];
    cbn; try (intros [= <-]; reflexivity).
  destruct (Byte.eqb b0 x00); cbn; [intros [= <-]; reflexivity |].
  destruct (exts_from_fileobj h _); cbn; [discriminate | intros [= <-]; reflexivity].
Qed.

(** The loader after the read, on the whole file in the buffer. *)
Lemma decode_image_filled (bs : list byte) :
  decode_image (filled bs)
  = (h ← Nifti1Header_init (take sizeof_hdr bs);
     payload ← getslice (filled bs) (Some (get_data_offset h)) None;
     typed ← ndarray_view payload (get_data_dtype h);
     arr ← ndarray_reshape_F typed (get_data_shape h);
     mret (arr, metadata h)).
Proof.
  unfold decode_image.
  destruct (header_stream bs) as (a & Ha & Hb). rewrite Ha.
  unfold mbind at 1, result_bind at 1, rbind at 1. cbv zeta. rewrite Hb.
  rewrite from_fileobj_short by (rewrite length_take; lia).
  destruct (Nifti1Header_init (take sizeof_hdr bs)) as [e | h]; reflexivity.
Qed.

Lemma nifti_gpu_load_missing w filename :
  fs w !! filename = None ->
  nifti_gpu_load filename w = (inl (OSError ENOENT), w).
Proof.
  intros Hfs. unfold nifti_gpu_load, mbind, M_bind, os_path_getsize.
  now rewrite Hfs.
Qed.

Lemma nifti_gpu_load_denied w filename node :
  fs w !! filename = Some node -> mode node = Denied ->
  nifti_gpu_load filename w = (inl (OSError EACCES), w).
Proof.
  intros Hfs Hmode. unfold nifti_gpu_load, mbind, M_bind, os_path_getsize.
  rewrite Hfs. now rewrite (with_read_denied w filename node).
Qed.

Lemma nifti_gpu_load_faulty w filename node :
  fs w !! filename = Some node -> mode node = Faulty ->
  nifti_gpu_load filename w = (inl (OSError EIO), w).
Proof.
  intros Hfs Hmode. unfold nifti_gpu_load, mbind, M_bind, os_path_getsize.
  rewrite Hfs. now rewrite (with_read_faulty w filename node).
Qed.

Lemma nifti_gpu_load_readable w filename node :
  fs w !! filename = Some node -> mode node = Readable ->
  nifti_gpu_load filename w = (decode_image (filled (content node)), w).
Proof.
  intros Hfs Hmode. unfold nifti_gpu_load, mbind at 1, M_bind at 1, os_path_getsize.
  rewrite Hfs. unfold mbind at 1, M_bind at 1.
  rewrite (with_read_readable w filename node Hfs Hmode).
  unfold decode_image, lift, mbind, M_bind, result_bind, rbind, mret, M_ret, result_ret.
  repeat match goal with
         | |- context [match ?r with inl _ => _ | inr _ => _ end] =>
             lazymatch r with
             | inl _ => fail
             | inr _ => fail
             | _ => destruct r; try reflexivity
             end
         end.
Qed.

End LoaderFacts.

(** ** Reinterpreting the payload *)

Lemma itemsize_pos (d : dtype) : 0 < itemsize d.
Proof. destruct d; reflexivity. Qed.

Lemma prod_pos (shape : list Z) : Forall (fun d => 0 < d) shape -> 0 < prod shape.
Proof. induction 1; simpl; lia. Qed.

Lemma resolve_shape_positive (size : Z) (shape : list Z) :
  Forall (fun d => 0 < d) shape ->
  resolve_shape size shape
  = if prod shape =? size then inr shape else raise ValueError.
Proof.
  intros Hpos. unfold resolve_shape.
  assert (filter (fun d => bool_decide (d < 0)) shape = []) as ->.
  { induction Hpos as [| d l Hd _ IH]; [reflexivity |].
    rewrite filter_cons, IH. rewrite bool_decide_eq_false_2 by lia. reflexivity. }
  reflexivity.
Qed.

Lemma view_payload (bs : list byte) (o : Z) (dt : dtype) :
  let L := Z.of_nat (length bs) - o in
  ndarray_view {| nd_base := bs; nd_offset := o; nd_dtype := uint8;
                  nd_shape := [L]; nd_strides := [1] |} dt
  = if L mod itemsize dt =? 0 then
      inr {| nd_base := bs; nd_offset := o; nd_dtype := dt;
             nd_shape := [L / itemsize dt]; nd_strides := [itemsize dt] |}
    else raise ValueError.
Proof.
  intros L. unfold ndarray_view. cbn [nd_dtype nd_shape nd_strides nd_base nd_offset rev app].
  change (itemsize uint8) with 1.
  destruct (Z.eqb_spec (itemsize dt) 1) as [E | E].
  - rewrite E, Z.mod_1_r, Z.div_1_r. reflexivity.
  - rewrite Z.eqb_refl, Z.mul_1_r. cbn [andb]. reflexivity.
Qed.

Lemma reshape_typed (bs : list byte) (o n : Z) (dt : dtype) (shape : list Z) :
  Forall (fun d => 0 < d) shape ->
  ndarray_reshape_F {| nd_base := bs; nd_offset := o; nd_dtype := dt;
                       nd_shape := [n]; nd_strides := [itemsize dt] |} shape
  = if prod shape =? n then
      inr {| nd_base := bs; nd_offset := o; nd_dtype := dt;
             nd_shape := shape; nd_strides := f_strides (itemsize dt) shape |}
    else raise ValueError.
Proof.
  intros Hpos. unfold ndarray_reshape_F, nd_size.
  cbn [nd_dtype nd_shape nd_strides nd_base nd_offset prod fold_right].
  rewrite resolve_shape_positive by assumption. rewrite Z.mul_1_r.
  destruct (prod shape =? n); [| reflexivity].
  cbn. rewrite Z.eqb_refl. reflexivity.
Qed.

Lemma reinterpret_unfold (bs : list byte) (off : Z) (dt : dtype) (shape : list Z) :
  0 ≤ off -> Forall (fun d => 0 < d) shape ->
  let o := Z.min off (Z.of_nat (length bs)) in
  let L := Z.of_nat (length bs) - o in
  reinterpret bs off dt shape
  = if (L mod itemsize dt =? 0) && (prod shape =? L / itemsize dt) then
      inr {| nd_base := bs; nd_offset := o; nd_dtype := dt;
             nd_shape := shape; nd_strides := f_strides (itemsize dt) shape |}
    else raise ValueError.
Proof.
  intros Hoff Hpos o L. unfold reinterpret.
  rewrite getslice_filled_start by assumption.
  unfold mbind at 1, result_bind at 1, rbind at 1.
  fold o. fold L. rewrite view_payload. fold L.
  destruct (L mod itemsize dt =? 0); cbn [andb]; [| reflexivity].
  unfold mbind, result_bind, rbind. now rewrite reshape_typed.
Qed.

Lemma reinterpret_fits (bs : list byte) (off : Z) (dt : dtype) (shape : list Z) :
  0 ≤ off -> Forall (fun d => 0 < d) shape ->
  prod shape * itemsize dt = Z.of_nat (length bs) - off ->
  reinterpret bs off dt shape
  = inr {| nd_base := bs; nd_offset := off; nd_dtype := dt;
           nd_shape := shape; nd_strides := f_strides (itemsize dt) shape |}.
Proof.
  intros Hoff Hpos Hfit. rewrite reinterpret_unfold by assumption.
  pose proof (itemsize_pos dt) as Hw. pose proof (prod_pos shape Hpos) as Hp.
  assert (off < Z.of_nat (length bs)) as Hlt by nia.
  rewrite Z.min_l by lia. rewrite <- Hfit.
  rewrite Z.mod_mul, Z.div_mul by lia. now rewrite !Z.eqb_refl.
Qed.

Lemma reinterpret_mismatch (bs : list byte) (off : Z) (dt : dtype) (shape : list Z) :
  0 ≤ off -> Forall (fun d => 0 < d) shape ->
  prod shape * itemsize dt ≠ Z.of_nat (length bs) - off ->
  reinterpret bs off dt shape = raise ValueError.
Proof.
  intros Hoff Hpos Hne. rewrite reinterpret_unfold by assumption.
  pose proof (itemsize_pos dt) as Hw. pose proof (prod_pos shape Hpos) as Hp.
  set (L := Z.of_nat (length bs) - Z.min off (Z.of_nat (length bs))).
  destruct (Z.eqb_spec (L mod itemsize dt) 0) as [Hmod | Hmod]; [| reflexivity].
  destruct (Z.eqb_spec (prod shape) (L / itemsize dt)) as [Hprod | Hprod]; [| reflexivity].
  exfalso. apply Z.div_exact in Hmod; [| lia].
  assert (prod shape * itemsize dt = L) as HL by (rewrite Hmod, Hprod; ring).
  unfold L in HL. destruct (Z.le_ge_cases off (Z.of_nat (length bs))).
  - rewrite Z.min_l in HL by lia. contradiction.
  - rewrite Z.min_r in HL by lia. nia.
Qed.

(** Column-major addressing: with Fortran strides, the byte offset of an
    index is the item size times its column-major position. *)
Lemma item_offset_f_strides (shape : list Z) :
  forall (w : Z) (idx : list Z) (k : Z),
    f_linear shape idx = Some k ->
    item_offset shape (f_strides w shape) idx = Some (w * k).
Proof.
  induction shape as [| d ds IH]; intros w idx k; destruct idx as [| i idx]; simpl;
    try discriminate.
  - intros [= <-]. f_equal. lia.
  - destruct (norm_index d i) as [i' |]; [| discriminate].
    destruct (f_linear ds idx) as [r |] eqn:Hr; [| discriminate].
    intros [= <-]. rewrite (IH (w * d) idx r Hr). f_equal. ring.
Qed.

Lemma f_linear_range (shape : list Z) :
  forall (idx : list Z) (k : Z), f_linear shape idx = Some k -> 0 ≤ k < prod shape.
Proof.
  induction shape as [| d ds IH]; intros idx k; destruct idx as [| i idx]; simpl;
    try discriminate.
  - intros [= <-]. lia.
  - destruct (norm_index d i) as [i' |] eqn:Hi; [| discriminate].
    destruct (f_linear ds idx) as [r |] eqn:Hr; [| discriminate].
    intros [= <-]. apply norm_index_range in Hi. specialize (IH idx r Hr). nia.
Qed.

Section LoadFacts.
Context {parser : HeaderParser}.

Lemma decode_image_reinterpret (bs : list byte) :
  decode_image (filled bs)
  = (h ← Nifti1Header_init (take sizeof_hdr bs);
     arr ← reinterpret bs (get_data_offset h) (get_data_dtype h) (get_data_shape h);
     mret (arr, metadata h)).
Proof.
  rewrite decode_image_filled.
  destruct (Nifti1Header_init (take sizeof_hdr bs)) as [e | h]; [reflexivity |].
  unfold reinterpret, mbind, result_bind, rbind.
  destruct (getslice _ _ _); [reflexivity |].
  destruct (ndarray_view _ _); reflexivity.
Qed.

(** A well-formed file loads, and the array is a window on the file's own
    bytes with Fortran strides. *)
Lemma nifti_gpu_load_wellformed w filename node h :
  wellformed_image_file w filename node h ->
  nifti_gpu_load filename w
  = (inr ({| nd_base := content node;
             nd_offset := get_data_offset h;
             nd_dtype := get_data_dtype h;
             nd_shape := get_data_shape h;
             nd_strides := f_strides (itemsize (get_data_dtype h)) (get_data_shape h) |},
          metadata h), w).
Proof.
  intros (Hfs & Hmode & Hinit & Hoff & Hpos & Hfit).
  rewrite (nifti_gpu_load_readable w filename node Hfs Hmode).
  rewrite decode_image_reinterpret, Hinit.
  unfold mbind at 1, result_bind at 1, rbind at 1.
  now rewrite reinterpret_fits.
Qed.

End LoadFacts.

(** ** Facts about the reference path *)

Section ReferenceFacts.
Context {parser : HeaderParser}.

Lemma init_length (bs : list byte) (h : header) :
  Nifti1Header_init bs = inr h -> length bs = sizeof_hdr.
Proof.
  unfold Nifti1Header_init. case_bool_decide; [auto | discriminate].
Qed.

Lemma wellformed_length w filename node h :
  wellformed_image_file w filename node h -> (sizeof_hdr ≤ length (content node))%nat.
Proof.
  intros (_ & _ & Hinit & _). apply init_length in Hinit.
  rewrite length_take in Hinit. lia.
Qed.

Lemma nib_load_valid w filename node hdr :
  valid_image_file w filename node hdr ->
  nib_load filename w
  = (inr {| img_header := hdr;
            img_affine := get_best_affine (structarr hdr);
            img_filename := filename |}, w).
Proof.
  intros [Hwf Hparse]. pose proof (wellformed_length _ _ _ _ Hwf) as Hlen.
  destruct Hwf as (Hfs & Hmode & _). unfold nib_load. rewrite Hfs.
  rewrite bool_decide_eq_false_2 by (unfold sizeof_hdr in Hlen; lia).
  now rewrite Hmode, Hparse.
Qed.

Lemma array_from_file_fits (shape : list Z) (dt : dtype) (bs : list byte) (off : Z) :
  0 ≤ off ≤ Z.of_nat (length bs) ->
  prod shape * itemsize dt = Z.of_nat (length bs) - off ->
  array_from_file shape dt bs off
  = inr (decode dt <$> items_of (itemsize dt) (prod shape) (drop (Z.to_nat off) bs)).
Proof.
  intros Hoff Hfit. unfold array_from_file.
  destruct (Z.ltb_spec off 0); [lia |].
  rewrite take_ge by (rewrite length_drop, Hfit; lia).
  rewrite bool_decide_eq_true_2 by (rewrite length_drop, Hfit; lia).
  reflexivity.
Qed.

Lemma get_fdata_valid w filename node hdr :
  valid_image_file w filename node hdr ->
  get_fdata {| img_header := hdr;
               img_affine := get_best_affine (structarr hdr);
               img_filename := filename |} w
  = (inr {| f_shape := get_data_shape (structarr hdr);
            f_data := fdata_item (structarr hdr) <$>
                        (decode (get_data_dtype (structarr hdr)) <$>
                           items_of (itemsize (get_data_dtype (structarr hdr)))
                             (prod (get_data_shape (structarr hdr)))
                             (drop (Z.to_nat (get_data_offset (structarr hdr)))
                                (content node))) |}, w).
Proof.
  intros [(Hfs & Hmode & Hinit & Hoff & Hpos & Hfit) Hparse].
  unfold get_fdata. cbn [img_filename img_header]. rewrite Hfs.
  pose proof (prod_pos _ Hpos). pose proof (itemsize_pos (get_data_dtype (structarr hdr))).
  rewrite array_from_file_fits by (try assumption; nia).
  unfold fdata_item. destruct (get_slope_inter (structarr hdr)) as [[slope inter] |];
    reflexivity.
Qed.

Lemma items_of_lookup (w n : Z) (bs : list byte) (k : Z) :
  0 ≤ k < n ->
  items_of w n bs !! Z.to_nat k = Some (take (Z.to_nat w) (drop (Z.to_nat (k * w)) bs)).
Proof.
  intros Hk. unfold items_of. rewrite list_lookup_fmap.
  rewrite zrange_lookup by lia. cbn. now rewrite Z2Nat.id by lia.
Qed.

Lemma fdata_lookup (node : filenode) (h : header) (k : Z) :
  0 ≤ get_data_offset h ->
  0 ≤ k < prod (get_data_shape h) ->
  (fdata_item h <$>
     (decode (get_data_dtype h) <$>
        items_of (itemsize (get_data_dtype h)) (prod (get_data_shape h))
          (drop (Z.to_nat (get_data_offset h)) (content node)))) !! Z.to_nat k
  = Some (fdata_item h (payload_item node h k)).
Proof.
  intros Hoff Hk. rewrite !list_lookup_fmap, items_of_lookup by assumption.
  cbn. unfold payload_item. rewrite drop_drop.
  pose proof (itemsize_pos (get_data_dtype h)).
  do 4 f_equal. rewrite <- Z2Nat.inj_add by nia. do 2 f_equal. ring.
Qed.

End ReferenceFacts.

(** ** Broadcasting and the comparison *)

Lemma broadcast_rev_none (r1 : list Z) :
  forall r2 : list Z,
    broadcast_rev r1 r2 = None <->
    exists (k : nat) (d1 d2 : Z),
      r1 !! k = Some d1 /\ r2 !! k = Some d2 /\ d1 ≠ d2 /\ d1 ≠ 1 /\ d2 ≠ 1.
Proof.
  induction r1 as [| d1 r1 IH]; intros r2.
  - simpl. split; [discriminate |]. intros (k & a & b & H & _). discriminate.
  - destruct r2 as [| d2 r2].
    + simpl. split; [discriminate |]. intros (k & a & b & _ & H & _). discriminate.
    + simpl. specialize (IH r2). split.
      * destruct (broadcast_rev r1 r2) as [r |].
        -- destruct (Z.eqb_spec d1 d2); [discriminate |].
           destruct (Z.eqb_spec d1 1); [discriminate |].
           destruct (Z.eqb_spec d2 1); [discriminate |].
           intros _. exists 0%nat, d1, d2. auto.
        -- intros _. destruct (proj1 IH eq_refl) as (k & a & b & Ha & Hb & Hne).
           exists (S k), a, b. auto.
      * intros ([| k] & a & b & Ha & Hb & Hab & Ha1 & Hb1).
        -- simpl in Ha, Hb. injection Ha as <-. injection Hb as <-.
           destruct (broadcast_rev r1 r2); [| reflexivity].
           destruct (Z.eqb_spec d1 d2); [contradiction |].
           destruct (Z.eqb_spec d1 1); [contradiction |].
           destruct (Z.eqb_spec d2 1); [contradiction |]. reflexivity.
        -- simpl in Ha, Hb.
           rewrite (proj2 IH) by (exists k, a, b; auto). reflexivity.
Qed.

Lemma broadcast_rev_diag (r : list Z) : broadcast_rev r r = Some r.
Proof.
  induction r as [| d r IH]; simpl; [reflexivity |].
  now rewrite IH, Z.eqb_refl.
Qed.

Lemma broadcast_shapes_diag (s : list Z) : broadcast_shapes s s = Some s.
Proof.
  unfold broadcast_shapes. rewrite broadcast_rev_diag. cbn. now rewrite rev_involutive.
Qed.

Lemma fgetitem_error (a : farray) (idx : list Z) (e : exn) :
  fgetitem a idx = inl e -> e = IndexError.
Proof.
  unfold fgetitem. destruct (f_linear _ _); [| intros [= <-]; reflexivity].
  destruct (_ !! _); [discriminate | intros [= <-]; reflexivity].
Qed.

Lemma getitem_error (a : ndarray) (idx : list Z) (e : exn) :
  getitem a idx = inl e -> e = IndexError.
Proof.
  unfold getitem. destruct (item_offset _ _ _); [discriminate | intros [= <-]; reflexivity].
Qed.

Lemma all_results_error (l : list (result bool)) (e : exn) :
  all_results l = inl e -> exists r, r ∈ l /\ r = inl e.
Proof.
  induction l as [| r l IH]; simpl; [discriminate |].
  destruct r as [e' | b]; cbn.
  - intros [= <-]. exists (inl e'). split; [left | reflexivity].
  - destruct (all_results l) as [e' | bs]; cbn; [| discriminate].
    intros [= <-]. destruct (IH eq_refl) as (r & Hr & ->).
    exists (inl e'). split; [now right | reflexivity].
Qed.

Lemma all_results_true {A} (f : A -> result bool) (l : list A) :
  (forall x, x ∈ l -> f x = inr true) -> all_results (f <$> l) = inr true.
Proof.
  induction l as [| x l IH]; intros H; [reflexivity |].
  cbn. rewrite (H x) by left. cbn.
  rewrite IH by (intros y Hy; apply H; now right). reflexivity.
Qed.

Lemma ndindex_bounds (shape : list Z) :
  forall idx : list Z,
    idx ∈ ndindex shape -> Forall2 (fun d i => 0 ≤ i < d) shape idx.
Proof.
  induction shape as [| d ds IH]; intros idx Hin.
  - apply list_elem_of_singleton in Hin as ->. constructor.
  - cbn [ndindex] in Hin. apply list_elem_of_In, in_flat_map in Hin as (i & Hi & Hin).
    apply list_elem_of_In in Hi, Hin.
    apply list_elem_of_fmap in Hin as (rest & -> & Hrest).
    constructor; [now apply zrange_bounds | now apply IH].
Qed.

Lemma broadcast_index_same (shape idx : list Z) :
  Forall2 (fun d i => 0 ≤ i < d) shape idx -> broadcast_index shape idx = idx.
Proof.
  intros H. unfold broadcast_index.
  rewrite (Forall2_length _ _ _ H), Nat.sub_diag, drop_0.
  induction H as [| d i ds idx Hd _ IH]; [reflexivity |].
  cbn. rewrite IH. f_equal. destruct (Z.eqb_spec d 1); lia.
Qed.

Lemma f_linear_defined (shape idx : list Z) :
  Forall2 (fun d i => 0 ≤ i < d) shape idx -> exists k, f_linear shape idx = Some k.
Proof.
  induction 1 as [| d i ds idx Hd _ [r IH]]; [now exists 0 |].
  cbn. rewrite norm_index_in, IH by assumption. eauto.
Qed.

Lemma all_results_forallb {A} (f : A -> result bool) (g : A -> bool) (l : list A) :
  (forall x, x ∈ l -> f x = inr (g x)) -> all_results (f <$> l) = inr (forallb g l).
Proof.
  induction l as [| x l IH]; intros Hfg; [reflexivity |].
  cbn. rewrite (Hfg x) by left. cbn.
  rewrite IH by (intros y Hy; apply Hfg; now right). reflexivity.
Qed.

Lemma zrange_elem (n i : Z) : 0 ≤ i < n -> i ∈ zrange n.
Proof.
  intros Hi. unfold zrange. apply list_elem_of_fmap. exists (Z.to_nat i).
  split; [lia |]. apply elem_of_seq. lia.
Qed.

Lemma ndindex_complete (shape : list Z) :
  forall idx : list Z,
    Forall2 (fun d i => 0 ≤ i < d) shape idx -> idx ∈ ndindex shape.
Proof.
  induction shape as [| d ds IH]; intros idx Hidx.
  - inversion Hidx. apply list_elem_of_singleton. reflexivity.
  - inversion Hidx as [| ? i ? rest Hi Hrest]; subst.
    cbn [ndindex]. apply list_elem_of_In, in_flat_map. exists i.
    split; [apply list_elem_of_In, zrange_elem, Hi |].
    apply in_map, list_elem_of_In, IH, Hrest.
Qed.

Lemma item_offset_defined (shape : list Z) :
  forall strides idx : list Z,
    length strides = length shape ->
    Forall2 (fun d i => 0 ≤ i < d) shape idx ->
    exists pos, item_offset shape strides idx = Some pos.
Proof.
  induction shape as [| d ds IH]; intros strides idx Hlen Hidx.
  - destruct strides; [| discriminate]. inversion Hidx. now exists 0.
  - destruct strides as [| s ss]; [discriminate |].
    inversion Hidx as [| ? i ? rest Hi Hrest]; subst.
    destruct (IH ss rest) as [r Hr]; [now injection Hlen | exact Hrest |].
    cbn. rewrite norm_index_in, Hr by assumption. eauto.
Qed.

Lemma Forall2_rev {A B} (P : A -> B -> Prop) (l : list A) (k : list B) :
  Forall2 P l k -> Forall2 P (rev l) (rev k).
Proof.
  induction 1 as [| x y l k Hxy _ IH]; [constructor |].
  cbn. apply Forall2_app; [exact IH | now constructor].
Qed.

Lemma zip_with_rev {A B C} (f : A -> B -> C) (l : list A) :
  forall k : list B,
    length l = length k -> zip_with f (rev l) (rev k) = rev (zip_with f l k).
Proof.
  induction l as [| x l IH]; intros [| y k] Hlen; try discriminate; [reflexivity |].
  cbn. rewrite zip_with_app by (rewrite !length_rev; now injection Hlen).
  rewrite IH by now injection Hlen. reflexivity.
Qed.

Lemma zip_with_longer {A B C} (f : A -> B -> C) (l : list A) (k k' : list B) :
  length l = length k -> zip_with f l (k ++ k') = zip_with f l k.
Proof.
  intros Hlen. rewrite <- (app_nil_r l) at 1.
  rewrite zip_with_app by exact Hlen. cbn. apply app_nil_r.
Qed.

(** The entry an operand reads stays in range. *)
Lemma select_in_range (r ridx : list Z) :
  Forall2 (fun d i => 0 ≤ i < d) r ridx ->
  Forall2 (fun d i => 0 ≤ i < d) r (zip_with (fun d i => if d =? 1 then 0 else i) r ridx).
Proof.
  induction 1 as [| d i r ridx Hi _ IH]; [constructor |].
  cbn. constructor; [| exact IH]. destruct (Z.eqb_spec d 1); lia.
Qed.

Lemma broadcast_rev_length (r1 : list Z) :
  forall r2 r : list Z,
    broadcast_rev r1 r2 = Some r -> length r = Nat.max (length r1) (length r2).
Proof.
  induction r1 as [| d1 r1 IH]; intros [| d2 r2] r; cbn.
  - now intros [= <-].
  - now intros [= <-].
  - now intros [= <-].
  - destruct (broadcast_rev r1 r2) as [r' |] eqn:Hr'; [| discriminate].
    specialize (IH r2 r' Hr').
    destruct (d1 =? d2); [| destruct (d1 =? 1); [| destruct (d2 =? 1)]];
      try discriminate; intros [= <-]; cbn; now rewrite IH.
Qed.

Lemma broadcast_rev_in_range (r1 : list Z) :
  forall r2 r ridx : list Z,
    broadcast_rev r1 r2 = Some r ->
    Forall2 (fun d i => 0 ≤ i < d) r ridx ->
    Forall2 (fun d i => 0 ≤ i < d) r1
      (zip_with (fun d i => if d =? 1 then 0 else i) r1 ridx) /\
    Forall2 (fun d i => 0 ≤ i < d) r2
      (zip_with (fun d i => if d =? 1 then 0 else i) r2 ridx).
Proof.
  induction r1 as [| d1 r1 IH]; intros [| d2 r2] r ridx; cbn [broadcast_rev].
  - intros [= <-] Hidx. inversion Hidx. split; constructor.
  - intros [= <-] Hidx. split; [destruct ridx; constructor | now apply select_in_range].
  - intros [= <-] Hidx. split; [now apply select_in_range | destruct ridx; constructor].
  - destruct (broadcast_rev r1 r2) as [r' |] eqn:Hr'; [| discriminate].
    intros Hr Hidx.
    assert (exists d, r = d :: r' /\ (d = d1 \/ d1 = 1) /\ (d = d2 \/ d2 = 1))
      as (d & -> & Hd1 & Hd2).
    { destruct (Z.eqb_spec d1 d2); [| destruct (Z.eqb_spec d1 1);
                                        [| destruct (Z.eqb_spec d2 1)]];
        try discriminate; injection Hr as <-; eexists; (split; [reflexivity |]); lia. }
    inversion Hidx as [| ? i ? rest Hi Hrest]; subst.
    destruct (IH r2 r' rest Hr' Hrest) as [H1 H2].
    cbn. split; (constructor; [| assumption]).
    + destruct (Z.eqb_spec d1 1); lia.
    + destruct (Z.eqb_spec d2 1); lia.
Qed.

Lemma broadcast_index_rev (s idx : list Z) :
  (length s ≤ length idx)%nat ->
  rev (broadcast_index s idx)
  = zip_with (fun d i => if d =? 1 then 0 else i) (rev s) (rev idx).
Proof.
  intros Hlen. unfold broadcast_index.
  rewrite <- zip_with_rev by (rewrite length_drop; lia).
  rewrite <- (take_drop (length idx - length s) idx) at 3.
  rewrite rev_app_distr. symmetry. apply zip_with_longer.
  rewrite !length_rev, length_drop. lia.
Qed.

(** An index of the broadcast shape is read in range by both operands. *)
Lemma broadcast_index_in_range (s1 s2 s idx : list Z) :
  broadcast_shapes s1 s2 = Some s ->
  Forall2 (fun d i => 0 ≤ i < d) s idx ->
  Forall2 (fun d i => 0 ≤ i < d) s1 (broadcast_index s1 idx) /\
  Forall2 (fun d i => 0 ≤ i < d) s2 (broadcast_index s2 idx).
Proof.
  unfold broadcast_shapes. intros Hs Hidx.
  destruct (broadcast_rev (rev s1) (rev s2)) as [r |] eqn:Hr; [| discriminate].
  cbn in Hs. injection Hs as <-.
  pose proof (Forall2_length _ _ _ Hidx) as Hlen.
  pose proof (broadcast_rev_length _ _ _ Hr) as Hmax.
  rewrite !length_rev in Hlen. rewrite !length_rev in Hmax.
  apply Forall2_rev in Hidx. rewrite rev_involutive in Hidx.
  destruct (broadcast_rev_in_range _ _ _ _ Hr Hidx) as [H1 H2].
  rewrite <- broadcast_index_rev in H1 by lia.
  rewrite <- broadcast_index_rev in H2 by lia.
  apply Forall2_rev in H1, H2. rewrite !rev_involutive in H1, H2. auto.
Qed.

(** On operands whose shapes broadcast, [np.allclose] raises nothing: its
    result is the conjunction of the elementwise comparisons. *)
Lemma np_allclose_broadcast (rtol atol : spec_float) (a : farray) (b : ndarray)
    (s : list Z) :
  broadcast_shapes (f_shape a) (nd_shape b) = Some s ->
  length (f_data a) = Z.to_nat (prod (f_shape a)) ->
  length (nd_strides b) = length (nd_shape b) ->
  np_allclose rtol atol a b
  = inr (forallb
           (fun idx =>
              match fgetitem a (broadcast_index (f_shape a) idx),
                    getitem b (broadcast_index (nd_shape b) idx) with
              | inr x, inr y => isclose rtol atol x (to_float64 y)
              | _, _ => false
              end)
           (ndindex s)).
Proof.
  intros Hs Hdata Hstrides. unfold np_allclose. rewrite Hs.
  apply all_results_forallb. intros idx Hidx.
  apply ndindex_bounds in Hidx.
  destruct (broadcast_index_in_range _ _ _ _ Hs Hidx) as [Ha Hb].
  destruct (f_linear_defined _ _ Ha) as [k Hk].
  pose proof (f_linear_range _ _ _ Hk) as Hrange.
  destruct (lookup_lt_is_Some_2 (f_data a) (Z.to_nat k)) as [x Hx]; [lia |].
  destruct (item_offset_defined _ (nd_strides b) _ Hstrides Hb) as [pos Hpos].
  unfold fgetitem, getitem. rewrite Hk, Hx, Hpos. reflexivity.
Qed.

Lemma np_all_eq_diag (a : affine) :
  Forall (Forall (fun x => is_nan x = false)) a -> np_all_eq a a = true.
Proof.
  unfold np_all_eq. induction 1 as [| row a Hrow _ IH]; [reflexivity |].
  cbn. rewrite IH, andb_true_r.
  induction Hrow as [| x row Hx _ IHrow]; [reflexivity |].
  cbn. rewrite IHrow, andb_true_r. now apply SFeqb_refl.
Qed.

(** [np.allclose] raises [ValueError] exactly when the shapes do not
    broadcast. *)
Lemma np_allclose_value_error (rtol atol : spec_float) (a : farray) (b : ndarray) :
  np_allclose rtol atol a b = inl ValueError <->
  exists (k : nat) (d1 d2 : Z),
    rev (f_shape a) !! k = Some d1 /\ rev (nd_shape b) !! k = Some d2 /\
    d1 ≠ d2 /\ d1 ≠ 1 /\ d2 ≠ 1.
Proof.
  rewrite <- broadcast_rev_none.
  unfold np_allclose, broadcast_shapes.
  destruct (broadcast_rev (rev (f_shape a)) (rev (nd_shape b))) as [r |]; cbn.
  - split; [| discriminate]. intros H. exfalso.
    apply all_results_error in H as (res & Hin & ->).
    apply list_elem_of_fmap in Hin as (idx & Hres & _).
    destruct (fgetitem a _) as [e | x] eqn:Hx; cbn in Hres.
    { apply fgetitem_error in Hx. congruence. }
    destruct (getitem b _) as [e | y] eqn:Hy; cbn in Hres.
    { apply getitem_error in Hy. congruence. }
    discriminate.
  - split; reflexivity.
Qed.

Section Agreement.
Context {parser : HeaderParser}.

(** The comparison of the two loaded arrays, element by element *)
Lemma np_allclose_loaded (node : filenode) (h : header) :
  0 ≤ get_data_offset h ->
  get_slope_inter h = None ->
  (forall idx k, f_linear (get_data_shape h) idx = Some k ->
                 scalar_is_nan (payload_item node h k) = false) ->
  np_allclose default_rtol default_atol
    {| f_shape := get_data_shape h;
       f_data := fdata_item h <$>
                   (decode (get_data_dtype h) <$>
                      items_of (itemsize (get_data_dtype h)) (prod (get_data_shape h))
                        (drop (Z.to_nat (get_data_offset h)) (content node))) |}
    {| nd_base := content node;
       nd_offset := get_data_offset h;
       nd_dtype := get_data_dtype h;
       nd_shape := get_data_shape h;
       nd_strides := f_strides (itemsize (get_data_dtype h)) (get_data_shape h) |}
  = inr true.
Proof.
  intros Hoff Hscale Hnan. unfold np_allclose. cbn [f_shape nd_shape].
  rewrite broadcast_shapes_diag. apply all_results_true. intros idx Hidx.
  apply ndindex_bounds in Hidx.
  rewrite (broadcast_index_same _ _ Hidx).
  destruct (f_linear_defined _ _ Hidx) as [k Hk].
  pose proof (f_linear_range _ _ _ Hk) as Hrange.
  unfold fgetitem, getitem. cbn [f_shape f_data nd_shape nd_strides nd_dtype].
  rewrite Hk, (fdata_lookup node h k Hoff Hrange).
  rewrite (item_offset_f_strides _ _ _ _ Hk). cbn.
  change (decode (get_data_dtype h) _) with (payload_item node h k).
  unfold fdata_item. rewrite Hscale. f_equal.
  apply isclose_refl, to_float64_number, (Hnan idx k Hk).
Qed.

End Agreement.

Lemma getitem_number (a : ndarray) (idx : list Z) (x : scalar) :
  nd_dtype a ≠ float32 -> nd_dtype a ≠ float64 ->
  getitem a idx = inr x -> scalar_is_nan x = false.
Proof.
  intros H32 H64. unfold getitem.
  destruct (item_offset _ _ _); [| discriminate]. intros [= <-].
  destruct (nd_dtype a); try reflexivity; contradiction.
Qed.

Lemma inr_pair_inj {A B E : Type} (a b : A) (w w' : B) :
  (@inr E A a, w) = (inr b, w') -> a = b.
Proof. now intros [= -> _]. Qed.

(** ** The example files are well-formed *)

Lemma synthetic_wellformed :
  wellformed_image_file synthetic_world "synthetic.nii" synthetic_node synthetic_header.
Proof.
  unfold wellformed_image_file. split; [| split; [| split; [| split; [| split]]]].
  - apply lookup_singleton_eq.
  - reflexivity.
  - vm_compute. reflexivity.
  - vm_compute. discriminate.
  - assert (get_data_shape synthetic_header = [4; 4; 4]) as -> by (vm_compute; reflexivity).
    repeat constructor.
  - vm_compute. reflexivity.
Defined.

Lemma synthetic_valid :
  valid_image_file synthetic_world "synthetic.nii" synthetic_node synthetic_nifti1header.
Proof.
  split; [exact synthetic_wellformed |].
  unfold Nifti1Header_from_fileobj.
  rewrite (proj1 (proj2 (proj2 synthetic_wellformed))).
  assert (take 4 (drop sizeof_hdr (content synthetic_node)) = [x00; x00; x00; x00]) as ->
    by (vm_compute; reflexivity).
  reflexivity.
Defined.

Lemma other_wellformed :
  wellformed_image_file other_world "other.nii" other_node synthetic_header.
Proof.
  unfold wellformed_image_file. split; [| split; [| split; [| split; [| split]]]].
  - apply lookup_singleton_eq.
  - reflexivity.
  - vm_compute. reflexivity.
  - vm_compute. discriminate.
  - assert (get_data_shape synthetic_header = [4; 4; 4]) as -> by (vm_compute; reflexivity).
    repeat constructor.
  - vm_compute. reflexivity.
Defined.

Lemma nan_valid : valid_image_file nan_world "nan.nii" nan_node nan_header.
Proof.
  assert (wellformed_image_file nan_world "nan.nii" nan_node (structarr nan_header)) as Hwf.
  { unfold wellformed_image_file. split; [| split; [| split; [| split; [| split]]]].
    - apply lookup_singleton_eq.
    - reflexivity.
    - vm_compute. reflexivity.
    - vm_compute. discriminate.
    - assert (get_data_shape (structarr nan_header) = [2]) as -> by (vm_compute; reflexivity).
      repeat constructor.
    - vm_compute. reflexivity. }
  split; [exact Hwf |].
  unfold Nifti1Header_from_fileobj.
  rewrite (proj1 (proj2 (proj2 Hwf))).
  assert (take 4 (drop sizeof_hdr (content nan_node)) = [x00; x00; x00; x00]) as ->
    by (vm_compute; reflexivity).
  reflexivity.
Qed.

Lemma nan_affine_valid :
  valid_image_file nan_affine_world "nanaff.nii" nan_affine_node nan_affine_nifti1header.
Proof.
  assert (wellformed_image_file nan_affine_world "nanaff.nii" nan_affine_node
            (structarr nan_affine_nifti1header)) as Hwf.
  { unfold wellformed_image_file. split; [| split; [| split; [| split; [| split]]]].
    - apply lookup_singleton_eq.
    - reflexivity.
    - vm_compute. reflexivity.
    - vm_compute. discriminate.
    - assert (get_data_shape (structarr nan_affine_nifti1header) = [4; 4; 4]) as ->
        by (vm_compute; reflexivity).
      repeat constructor.
    - vm_compute. reflexivity. }
  split; [exact Hwf |].
  unfold Nifti1Header_from_fileobj.
  rewrite (proj1 (proj2 (proj2 Hwf))).
  assert (take 4 (drop sizeof_hdr (content nan_affine_node)) = [x00; x00; x00; x00]) as ->
    by (vm_compute; reflexivity).
  reflexivity.
Qed.

(** ** The claims *)

(** C1.  For every well-formed image file the accelerated loader returns the
    bytes from the data offset onward as an array of the header's element type
    and shape in column-major order: the element at an index is the item of
    the payload at the index's column-major position (first index fastest).
    In particular, on the synthetic file (header of 348 bytes, data offset 352,
    shape (4,4,4), int16, identity affine, payload 0..63) the accelerated and
    the reference loader both return a 4x4x4 array whose element (i,j,k) is
    i + 4j + 16k, and the identity affine. *)
Theorem nifti_gpu_load_column_major :
  (forall (parser : HeaderParser) (w : world) (filename : string)
          (node : filenode) (h : header),
      wellformed_image_file w filename node h ->
      exists arr,
        nifti_gpu_load filename w = (inr (arr, metadata h), w) /\
        nd_dtype arr = get_data_dtype h /\
        nd_shape arr = get_data_shape h /\
        forall idx k,
          f_linear (get_data_shape h) idx = Some k ->
          getitem arr idx = inr (payload_item node h k))
  /\
  (exists arr meta img ref,
      nifti_gpu_load "synthetic.nii" synthetic_world = (inr (arr, meta), synthetic_world) /\
      nib_load "synthetic.nii" synthetic_world = (inr img, synthetic_world) /\
      get_fdata img synthetic_world = (inr ref, synthetic_world) /\
      nd_offset arr = 352 /\ nd_dtype arr = int16 /\
      nd_shape arr = [4; 4; 4] /\ f_shape ref = [4; 4; 4] /\
      (forall i j k, 0 ≤ i < 4 -> 0 ≤ j < 4 -> 0 ≤ k < 4 ->
          getitem arr [i; j; k] = inr (SInt (i + 4 * j + 16 * k)) /\
          fgetitem ref [i; j; k] = inr (to_float64 (SInt (i + 4 * j + 16 * k)))) /\
      meta !! "affine" = Some (Matrix MiniNifti1.identity_affine) /\
      img_affine img = MiniNifti1.identity_affine).
Proof.
  split.
  - intros parser w filename node h Hwf.
    eexists. split; [apply (nifti_gpu_load_wellformed w filename node h Hwf) |].
    cbn [nd_dtype nd_shape]. do 2 (split; [reflexivity |]).
    intros idx k Hk. unfold getitem. cbn [nd_shape nd_strides nd_dtype].
    rewrite (item_offset_f_strides _ _ _ _ Hk). reflexivity.
  - do 4 eexists.
    split; [apply (nifti_gpu_load_wellformed _ _ _ _ synthetic_wellformed) |].
    split; [apply (nib_load_valid _ _ _ _ synthetic_valid) |].
    split; [apply (get_fdata_valid _ _ _ _ synthetic_valid) |].
    do 4 (split; [vm_compute; reflexivity |]).
    split; [| split; [| vm_compute; reflexivity]].
    + intros i j k Hi Hj Hk.
      assert (i = 0 \/ i = 1 \/ i = 2 \/ i = 3) as Ei by lia.
      assert (j = 0 \/ j = 1 \/ j = 2 \/ j = 3) as Ej by lia.
      assert (k = 0 \/ k = 1 \/ k = 2 \/ k = 3) as Ek by lia.
      destruct Ei as [-> | [-> | [-> | ->]]];
        destruct Ej as [-> | [-> | [-> | ->]]];
        destruct Ek as [-> | [-> | [-> | ->]]];
        split; vm_compute; reflexivity.
    + unfold metadata. rewrite lookup_insert_eq. vm_compute. reflexivity.
Qed.

Lemma nifti_gpu_load_column_major_witness :
  exists arr,
    nifti_gpu_load "synthetic.nii" synthetic_world
      = (inr (arr, metadata synthetic_header), synthetic_world) /\
    nd_dtype arr = int16 /\
    nd_shape arr = [4; 4; 4] /\
    getitem arr [1; 2; 3] = inr (SInt 57).
Proof.
  destruct (proj1 nifti_gpu_load_column_major MiniNifti1.parser synthetic_world
              "synthetic.nii" synthetic_node synthetic_header synthetic_wellformed)
    as (arr & Hload & Hdt & Hsh & Hitem).
  exists arr. split; [exact Hload |].
  split; [rewrite Hdt; vm_compute; reflexivity |].
  split; [rewrite Hsh; vm_compute; reflexivity |].
  rewrite (Hitem [1; 2; 3] 57) by (vm_compute; reflexivity).
  vm_compute. reflexivity.
Defined.

(** C2, counterexample: a valid image file with no rescaling on which
    [np.allclose] of the two loaded arrays is [False] (a NaN voxel is close to
    nothing, itself included), and a valid image file on which the check
    [np.all(img_cpu.affine == meta_gpu["affine"])] is [False] (a NaN entry in
    the affine). *)
Lemma allclose_fails_on_nan :
  (valid_image_file nan_world "nan.nii" nan_node nan_header /\
   get_slope_inter (structarr nan_header) = None /\
   exists arr meta img ref,
     nifti_gpu_load "nan.nii" nan_world = (inr (arr, meta), nan_world) /\
     nib_load "nan.nii" nan_world = (inr img, nan_world) /\
     get_fdata img nan_world = (inr ref, nan_world) /\
     np_allclose default_rtol default_atol ref arr = inr false)
  /\
  (valid_image_file nan_affine_world "nanaff.nii" nan_affine_node nan_affine_nifti1header /\
   exists arr meta img affine_gpu,
     nifti_gpu_load "nanaff.nii" nan_affine_world = (inr (arr, meta), nan_affine_world) /\
     nib_load "nanaff.nii" nan_affine_world = (inr img, nan_affine_world) /\
     meta !! "affine" = Some (Matrix affine_gpu) /\
     np_all_eq (img_affine img) affine_gpu = false).
Proof.
  split.
  - split; [exact nan_valid |].
    split; [vm_compute; reflexivity |].
    do 4 eexists.
    split; [apply (nifti_gpu_load_wellformed _ _ _ _ (proj1 nan_valid)) |].
    split; [apply (nib_load_valid _ _ _ _ nan_valid) |].
    split; [apply (get_fdata_valid _ _ _ _ nan_valid) |].
    vm_compute. reflexivity.
  - split; [exact nan_affine_valid |].
    do 4 eexists.
    split; [apply (nifti_gpu_load_wellformed _ _ _ _ (proj1 nan_affine_valid)) |].
    split; [apply (nib_load_valid _ _ _ _ nan_affine_valid) |].
    split; [apply lookup_insert_eq |].
    vm_compute. reflexivity.
Qed.

(** C2 (as the code has it).  For every valid image file both loaders
    succeed and the affine the accelerated loader stores in its metadata is
    the very matrix the reference image carries, with or without rescaling;
    the check [np.all(img_cpu.affine == meta_gpu["affine"])] is [True] when
    no entry is NaN.  When the header asks for no rescaling and no voxel is
    NaN, [np.allclose(img_cpu_array, img_gpu)] with the default tolerances
    (rtol 1e-5) is [True]. *)
Theorem loaders_agree_without_nan :
  forall (parser : HeaderParser) (w : world) (filename : string)
         (node : filenode) (hdr : Nifti1Header),
    valid_image_file w filename node hdr ->
    exists arr meta img ref affine_gpu,
      nifti_gpu_load filename w = (inr (arr, meta), w) /\
      nib_load filename w = (inr img, w) /\
      get_fdata img w = (inr ref, w) /\
      meta !! "affine" = Some (Matrix affine_gpu) /\
      affine_gpu = img_affine img /\
      (Forall (Forall (fun x => is_nan x = false)) (img_affine img) ->
       np_all_eq (img_affine img) affine_gpu = true) /\
      (get_slope_inter (structarr hdr) = None ->
       (forall idx x, getitem arr idx = inr x -> scalar_is_nan x = false) ->
       np_allclose default_rtol default_atol ref arr = inr true).
Proof.
  intros parser w filename node hdr Hvalid.
  do 5 eexists.
  split; [apply (nifti_gpu_load_wellformed _ _ _ _ (proj1 Hvalid)) |].
  split; [apply (nib_load_valid _ _ _ _ Hvalid) |].
  split; [apply (get_fdata_valid _ _ _ _ Hvalid) |].
  split; [apply lookup_insert_eq |].
  split; [reflexivity |].
  split; [apply np_all_eq_diag |].
  intros Hscale Hnan.
  destruct Hvalid as [(_ & _ & _ & Hoff & _) _].
  apply np_allclose_loaded; try assumption.
  intros idx k Hk. apply (Hnan idx).
  unfold getitem. cbn [nd_shape nd_strides nd_dtype].
  now rewrite (item_offset_f_strides _ _ _ _ Hk).
Qed.

Lemma loaders_agree_without_nan_witness :
  exists arr meta img ref affine_gpu,
    nifti_gpu_load "synthetic.nii" synthetic_world = (inr (arr, meta), synthetic_world) /\
    nib_load "synthetic.nii" synthetic_world = (inr img, synthetic_world) /\
    get_fdata img synthetic_world = (inr ref, synthetic_world) /\
    meta !! "affine" = Some (Matrix affine_gpu) /\
    np_all_eq (img_affine img) affine_gpu = true /\
    np_allclose default_rtol default_atol ref arr = inr true.
Proof.
  destruct (loaders_agree_without_nan MiniNifti1.parser synthetic_world "synthetic.nii"
              synthetic_node synthetic_nifti1header synthetic_valid)
    as (arr & meta & img & ref & a & Hacc & Himg & Href & Haff & Ha & Heq & Hclose).
  exists arr, meta, img, ref, a.
  do 4 (split; [assumption |]).
  split.
  - apply Heq.
    rewrite (nib_load_valid _ _ _ _ synthetic_valid) in Himg.
    apply inr_pair_inj in Himg. subst img. cbn [img_affine].
    assert (get_best_affine (structarr synthetic_nifti1header) = MiniNifti1.identity_affine)
      as -> by (vm_compute; reflexivity).
    repeat constructor.
  - apply Hclose; [vm_compute; reflexivity |].
    rewrite (nifti_gpu_load_wellformed _ _ _ _ synthetic_wellformed) in Hacc.
    apply inr_pair_inj in Hacc. apply (f_equal fst) in Hacc. cbn [fst] in Hacc.
    subst arr. intros idx x.
    apply getitem_number; cbn [nd_dtype];
      assert (get_data_dtype synthetic_header = int16) as -> by (vm_compute; reflexivity);
      discriminate.
Defined.


(** C3, counterexample: the shapes (1,) and (3,) differ, and [np.allclose]
    returns [True] instead of failing. *)
Lemma np_allclose_differing_shapes :
  f_shape ones1 ≠ nd_shape ones3 /\
  np_allclose default_rtol default_atol ones1 ones3 = inr true.
Proof. split; [discriminate | vm_compute; reflexivity]. Qed.

(** C3 (as the code has it).  [np.allclose] fails with the shape-mismatch
    error ([ValueError]) exactly when the two shapes cannot be broadcast
    together, that is when some pair of extents, aligned from the last axis,
    differ and neither is 1.  On arrays whose shapes broadcast, differing or
    not, it raises no error and returns a boolean: the result of the
    elementwise comparison of the broadcast arrays, true exactly when every
    index of the broadcast shape reads a pair of close elements.  (An array
    holds as many elements as its shape says and has a stride for every
    axis.) *)
Theorem np_allclose_shape_error :
  forall (rtol atol : spec_float) (a : farray) (b : ndarray),
    ((exists e, np_allclose rtol atol a b = inl e /\ ShapeMismatchError e = true) <->
     broadcast_shapes (f_shape a) (nd_shape b) = None) /\
    (broadcast_shapes (f_shape a) (nd_shape b) = None <->
     exists (k : nat) (d1 d2 : Z),
       rev (f_shape a) !! k = Some d1 /\ rev (nd_shape b) !! k = Some d2 /\
       d1 ≠ d2 /\ d1 ≠ 1 /\ d2 ≠ 1) /\
    (forall s : list Z,
        broadcast_shapes (f_shape a) (nd_shape b) = Some s ->
        length (f_data a) = Z.to_nat (prod (f_shape a)) ->
        length (nd_strides b) = length (nd_shape b) ->
        exists verdict : bool,
          np_allclose rtol atol a b = inr verdict /\
          (verdict = true <->
           forall idx : list Z,
             Forall2 (fun d i => 0 ≤ i < d) s idx ->
             exists (x : spec_float) (y : scalar),
               fgetitem a (broadcast_index (f_shape a) idx) = inr x /\
               getitem b (broadcast_index (nd_shape b) idx) = inr y /\
               isclose rtol atol x (to_float64 y) = true)).
Proof.
  intros rtol atol a b.
  assert (broadcast_shapes (f_shape a) (nd_shape b) = None <->
          exists (k : nat) (d1 d2 : Z),
            rev (f_shape a) !! k = Some d1 /\ rev (nd_shape b) !! k = Some d2 /\
            d1 ≠ d2 /\ d1 ≠ 1 /\ d2 ≠ 1) as Hnone.
  { rewrite <- broadcast_rev_none. unfold broadcast_shapes.
    destruct (broadcast_rev _ _); cbn; split; congruence. }
  split; [| split; [exact Hnone |]].
  - rewrite Hnone, <- np_allclose_value_error. split.
    + intros (e & He & Hs). destruct e; try discriminate. exact He.
    + intros H. exists ValueError. split; [exact H | reflexivity].
  - intros s Hs Hdata Hstrides. eexists. split.
    + apply (np_allclose_broadcast rtol atol a b s Hs Hdata Hstrides).
    + rewrite forallb_forall. split.
      * intros Hall idx Hidx.
        specialize (Hall idx (proj1 (list_elem_of_In _ _) (ndindex_complete _ _ Hidx))).
        destruct (fgetitem a _) as [? | x]; [discriminate |].
        destruct (getitem b _) as [? | y]; [discriminate |].
        exists x, y. auto.
      * intros Hall idx Hidx.
        apply list_elem_of_In, ndindex_bounds in Hidx.
        destruct (Hall idx Hidx) as (x & y & -> & -> & Hclose). exact Hclose.
Qed.

Lemma np_allclose_shape_error_witness :
  broadcast_shapes (f_shape column21) (nd_shape ones3) = Some [2; 3] /\
  np_allclose default_rtol default_atol column21 ones3 = inr false.
Proof.
  split; [reflexivity |].
  destruct (proj2 (proj2 (np_allclose_shape_error default_rtol default_atol
                            column21 ones3)) [2; 3] eq_refl eq_refl eq_refl)
    as (verdict & Hv & Hiff).
  rewrite Hv. destruct verdict; [| reflexivity].
  destruct (proj1 Hiff eq_refl [1; 0]) as (x & y & Hx & Hy & Hclose).
  { constructor; [lia | constructor; [lia | constructor]]. }
  vm_compute in Hx. vm_compute in Hy.
  apply (inj inr) in Hx. apply (inj inr) in Hy. subst x y.
  vm_compute in Hclose. discriminate.
Defined.

(** C4, counterexample: two files of at least 348 bytes whose headers parse
    and whose declared shape and element type do not satisfy
    element count * element byte width = file byte length - data offset,
    and which load all the same.  The first declares the shape (-1,): the
    product is negative, and [reshape] infers the extent from the ten bytes
    of the payload.  The second declares no element at the data offset 1000,
    past the end of its 352 bytes: the slice is clamped to the end of the
    file, where the empty array fits. *)
Lemma payload_mismatch_loads :
  ((sizeof_hdr ≤ length (content infer_node))%nat /\
   Nifti1Header_init (take sizeof_hdr (content infer_node)) = inr infer_header /\
   prod (get_data_shape infer_header) * itemsize (get_data_dtype infer_header)
     ≠ Z.of_nat (length (content infer_node)) - get_data_offset infer_header /\
   exists arr meta,
     nifti_gpu_load "infer.nii" infer_world = (inr (arr, meta), infer_world) /\
     nd_shape arr = [10]) /\
  ((sizeof_hdr ≤ length (content empty_shape_node))%nat /\
   Nifti1Header_init (take sizeof_hdr (content empty_shape_node))
     = inr empty_shape_header /\
   prod (get_data_shape empty_shape_header) * itemsize (get_data_dtype empty_shape_header)
     ≠ Z.of_nat (length (content empty_shape_node)) - get_data_offset empty_shape_header /\
   exists arr meta,
     nifti_gpu_load "empty.nii" empty_shape_world = (inr (arr, meta), empty_shape_world) /\
     nd_shape arr = [0]).
Proof.
  split.
  - assert (Nifti1Header_init (take sizeof_hdr (content infer_node)) = inr infer_header)
      as Hinit by (vm_compute; reflexivity).
    split; [vm_compute; lia |]. split; [exact Hinit |].
    split; [vm_compute; discriminate |].
    rewrite (nifti_gpu_load_readable infer_world "infer.nii" infer_node
               (lookup_singleton_eq _ _) eq_refl).
    rewrite decode_image_reinterpret, Hinit.
    unfold mbind at 1, result_bind at 1, rbind at 1.
    assert (reinterpret (content infer_node) (get_data_offset infer_header)
              (get_data_dtype infer_header) (get_data_shape infer_header)
            = inr {| nd_base := content infer_node; nd_offset := 352; nd_dtype := uint8;
                     nd_shape := [10]; nd_strides := [1] |}) as ->
      by (vm_compute; reflexivity).
    eexists _, _. split; reflexivity.
  - assert (Nifti1Header_init (take sizeof_hdr (content empty_shape_node))
            = inr empty_shape_header) as Hinit by (vm_compute; reflexivity).
    split; [vm_compute; lia |]. split; [exact Hinit |].
    split; [vm_compute; discriminate |].
    rewrite (nifti_gpu_load_readable empty_shape_world "empty.nii" empty_shape_node
               (lookup_singleton_eq _ _) eq_refl).
    rewrite decode_image_reinterpret, Hinit.
    unfold mbind at 1, result_bind at 1, rbind at 1.
    assert (reinterpret (content empty_shape_node) (get_data_offset empty_shape_header)
              (get_data_dtype empty_shape_header) (get_data_shape empty_shape_header)
            = inr {| nd_base := content empty_shape_node; nd_offset := 352;
                     nd_dtype := uint8; nd_shape := [0]; nd_strides := [1] |}) as ->
      by (vm_compute; reflexivity).
    eexists _, _. split; reflexivity.
Qed.

(** C4 (as the code has it).  For every readable file of at least 348 bytes
    whose header parses with a shape of positive extents and a data offset
    that is not negative, but whose declared shape and element type do not
    satisfy
    element count * element byte width = file byte length - data offset,
    the accelerated loader fails with a format error (the [ValueError] of the
    reinterpretation) and returns nothing. *)
Theorem nifti_gpu_load_payload_mismatch :
  forall (parser : HeaderParser) (w : world) (filename : string)
         (node : filenode) (h : header),
    fs w !! filename = Some node ->
    mode node = Readable ->
    (sizeof_hdr ≤ length (content node))%nat ->
    Nifti1Header_init (take sizeof_hdr (content node)) = inr h ->
    0 ≤ get_data_offset h ->
    Forall (fun d => 0 < d) (get_data_shape h) ->
    prod (get_data_shape h) * itemsize (get_data_dtype h)
      ≠ Z.of_nat (length (content node)) - get_data_offset h ->
    exists e, nifti_gpu_load filename w = (inl e, w) /\ FormatError e = true.
Proof.
  intros parser w filename node h Hfs Hmode _ Hinit Hoff Hpos Hne.
  exists ValueError. split; [| reflexivity].
  rewrite (nifti_gpu_load_readable w filename node Hfs Hmode).
  rewrite decode_image_reinterpret, Hinit.
  unfold mbind at 1, result_bind at 1, rbind at 1.
  now rewrite reinterpret_mismatch.
Qed.

Lemma nifti_gpu_load_payload_mismatch_witness :
  exists e,
    nifti_gpu_load "short.nii" (MiniNifti1.one_file "short.nii" short_payload_file)
      = (inl e, MiniNifti1.one_file "short.nii" short_payload_file)
    /\ FormatError e = true.
Proof.
  apply (nifti_gpu_load_payload_mismatch MiniNifti1.parser
           (MiniNifti1.one_file "short.nii" short_payload_file) "short.nii"
           short_payload_node synthetic_header).
  - apply lookup_singleton_eq.
  - reflexivity.
  - vm_compute. lia.
  - vm_compute. reflexivity.
  - vm_compute. discriminate.
  - assert (get_data_shape synthetic_header = [4; 4; 4]) as -> by (vm_compute; reflexivity).
    repeat constructor.
  - vm_compute. discriminate.
Defined.

(** C5.  For every existing readable file shorter than the 348 bytes of the
    header, the accelerated loader fails with a format error (the parser's
    [WrapStructError] for a block of the wrong size). *)
Theorem nifti_gpu_load_truncated :
  forall (parser : HeaderParser) (w : world) (filename : string) (node : filenode),
    fs w !! filename = Some node ->
    mode node = Readable ->
    (length (content node) < sizeof_hdr)%nat ->
    exists e, nifti_gpu_load filename w = (inl e, w) /\ FormatError e = true.
Proof.
  intros parser w filename node Hfs Hmode Hlen.
  exists WrapStructError. split; [| reflexivity].
  rewrite (nifti_gpu_load_readable w filename node Hfs Hmode).
  rewrite decode_image_reinterpret. unfold Nifti1Header_init.
  rewrite take_ge by lia.
  rewrite bool_decide_eq_false_2 by lia. reflexivity.
Qed.

Lemma nifti_gpu_load_truncated_witness :
  exists e,
    nifti_gpu_load "cut.nii" (MiniNifti1.one_file "cut.nii" (take 100 synthetic_header))
      = (inl e, MiniNifti1.one_file "cut.nii" (take 100 synthetic_header))
    /\ FormatError e = true.
Proof.
  apply (nifti_gpu_load_truncated MiniNifti1.parser
           (MiniNifti1.one_file "cut.nii" (take 100 synthetic_header)) "cut.nii"
           {| content := take 100 synthetic_header; mode := Readable |}).
  - apply lookup_singleton_eq.
  - reflexivity.
  - vm_compute. lia.
Defined.

(** C6.  For every path that does not refer to an existing readable file,
    the accelerated loader fails with an I/O error: [FileNotFoundError] from
    [os.path.getsize] when the path does not exist, the storage reader's
    error when the file cannot be opened or read. *)
Theorem nifti_gpu_load_unreadable :
  forall (parser : HeaderParser) (w : world) (filename : string),
    ~ readable_file w filename ->
    exists e, nifti_gpu_load filename w = (inl e, w) /\ IOError e = true.
Proof.
  intros parser w filename Hnot.
  destruct (fs w !! filename) as [node |] eqn:Hfs.
  - destruct (mode node) eqn:Hmode.
    + exfalso. apply Hnot. now exists node.
    + exists (OSError EACCES). split; [| reflexivity].
      now apply nifti_gpu_load_denied with node.
    + exists (OSError EIO). split; [| reflexivity].
      now apply nifti_gpu_load_faulty with node.
  - exists (OSError ENOENT). split; [| reflexivity].
    now apply nifti_gpu_load_missing.
Qed.

Lemma nifti_gpu_load_unreadable_witness :
  exists e,
    nifti_gpu_load "missing.nii" synthetic_world = (inl e, synthetic_world)
    /\ IOError e = true.
Proof.
  apply (nifti_gpu_load_unreadable MiniNifti1.parser synthetic_world "missing.nii").
  intros (node & Hfs & _). vm_compute in Hfs. discriminate.
Defined.

(** C7.  For every valid image file, the array returned by the accelerated
    loader and the array returned by the reference loader have the same
    shape. *)
Theorem loaders_same_shape :
  forall (parser : HeaderParser) (w : world) (filename : string)
         (node : filenode) (hdr : Nifti1Header),
    valid_image_file w filename node hdr ->
    exists arr meta img ref,
      nifti_gpu_load filename w = (inr (arr, meta), w) /\
      nib_load filename w = (inr img, w) /\
      get_fdata img w = (inr ref, w) /\
      nd_shape arr = f_shape ref.
Proof.
  intros parser w filename node hdr Hvalid.
  do 4 eexists.
  split; [apply (nifti_gpu_load_wellformed _ _ _ _ (proj1 Hvalid)) |].
  split; [apply (nib_load_valid _ _ _ _ Hvalid) |].
  split; [apply (get_fdata_valid _ _ _ _ Hvalid) |].
  reflexivity.
Qed.

Lemma loaders_same_shape_witness :
  exists arr meta img ref,
    nifti_gpu_load "synthetic.nii" synthetic_world = (inr (arr, meta), synthetic_world) /\
    nib_load "synthetic.nii" synthetic_world = (inr img, synthetic_world) /\
    get_fdata img synthetic_world = (inr ref, synthetic_world) /\
    nd_shape arr = f_shape ref.
Proof.
  exact (loaders_same_shape MiniNifti1.parser synthetic_world "synthetic.nii"
           synthetic_node synthetic_nifti1header synthetic_valid).
Defined.

(** C8.  For every valid image file, calling the accelerated loader twice on
    the same unmodified file returns the same array and metadata both times;
    a call leaves the world as it found it, and its result depends on nothing
    but the file it is given. *)
Theorem nifti_gpu_load_idempotent :
  forall (parser : HeaderParser) (w : world) (filename : string)
         (node : filenode) (h : header),
    wellformed_image_file w filename node h ->
    exists arr meta w1 w2,
      nifti_gpu_load filename w = (inr (arr, meta), w1) /\
      nifti_gpu_load filename w1 = (inr (arr, meta), w2) /\
      w1 = w /\ w2 = w /\
      forall w', fs w' !! filename = Some node ->
                 nifti_gpu_load filename w' = (inr (arr, meta), w').
Proof.
  intros parser w filename node h Hwf.
  pose proof (nifti_gpu_load_wellformed w filename node h Hwf) as Hload.
  do 2 eexists. exists w, w.
  split; [exact Hload |]. split; [exact Hload |]. do 2 (split; [reflexivity |]).
  intros w' Hfs'. apply nifti_gpu_load_wellformed.
  destruct Hwf as (_ & Hrest). split; assumption.
Qed.

Lemma nifti_gpu_load_idempotent_witness :
  exists arr meta w1 w2,
    nifti_gpu_load "synthetic.nii" synthetic_world = (inr (arr, meta), w1) /\
    nifti_gpu_load "synthetic.nii" w1 = (inr (arr, meta), w2) /\
    w1 = synthetic_world /\ w2 = synthetic_world /\
    forall w', fs w' !! "synthetic.nii" = Some synthetic_node ->
               nifti_gpu_load "synthetic.nii" w' = (inr (arr, meta), w').
Proof.
  exact (nifti_gpu_load_idempotent MiniNifti1.parser synthetic_world "synthetic.nii"
           synthetic_node synthetic_header synthetic_wellformed).
Defined.

(** C9.  On every exit path of the accelerated loader -- a missing file, a
    failed open, a read that raises inside the [with] block, a parse or
    format error after the read, or a normal return -- no file handle is left
    open: the table of open handles is what it was before the call.  The
    [with] block itself releases the handle whatever its body does, as long
    as the body does not touch the table. *)
Theorem nifti_gpu_load_releases_handle :
  forall (parser : HeaderParser) (w : world) (filename : string),
    handles (nifti_gpu_load filename w).2 = handles w /\
    forall (A : Type) (body : nat -> M A),
      (forall f w', handles (body f w').2 = handles w') ->
      handles (with_CuFile filename body w).2 = handles w.
Proof.
  intros parser w filename. split.
  - destruct (fs w !! filename) as [node |] eqn:Hfs.
    + destruct (mode node) eqn:Hmode.
      * now rewrite (nifti_gpu_load_readable w filename node).
      * now rewrite (nifti_gpu_load_denied w filename node).
      * now rewrite (nifti_gpu_load_faulty w filename node).
    + now rewrite nifti_gpu_load_missing.
  - intros A body Hbody. now apply with_CuFile_releases.
Qed.

Lemma nifti_gpu_load_releases_handle_witness :
  (nifti_gpu_load "bad.nii" faulty_world).1 = inl (OSError EIO) /\
  handles (nifti_gpu_load "bad.nii" faulty_world).2 = handles faulty_world /\
  handles (with_CuFile "bad.nii"
             (fun f => CuFile_read f (cp_empty 3 uint8)) faulty_world).2
    = handles faulty_world.
Proof.
  destruct (nifti_gpu_load_releases_handle MiniNifti1.parser faulty_world "bad.nii")
    as [Hload Hwith].
  split; [| split; [exact Hload |]].
  - rewrite (nifti_gpu_load_faulty faulty_world "bad.nii"
               {| content := MiniNifti1.synthetic_file; mode := Faulty |});
      [reflexivity | apply lookup_singleton_eq | reflexivity].
  - apply Hwith. intros f w'. unfold CuFile_read.
    destruct (handles w' !! f); [| reflexivity].
    destruct (fs w' !! _) as [node |]; [| reflexivity].
    destruct (mode node); reflexivity.
Defined.

(** C10.  The metadata returned by the accelerated loader depends only on the
    first 348 bytes of the file: when two files agree on their first 348
    bytes and both load, the two metadata dictionaries are equal, whatever
    the bytes after the header are. *)
Theorem metadata_depends_on_header_bytes :
  forall (parser : HeaderParser) (w1 w2 : world) (f1 f2 : string)
         (n1 n2 : filenode) (a1 a2 : ndarray) (m1 m2 : gmap string pyobj)
         (w1' w2' : world),
    fs w1 !! f1 = Some n1 ->
    fs w2 !! f2 = Some n2 ->
    take sizeof_hdr (content n1) = take sizeof_hdr (content n2) ->
    nifti_gpu_load f1 w1 = (inr (a1, m1), w1') ->
    nifti_gpu_load f2 w2 = (inr (a2, m2), w2') ->
    m1 = m2.
Proof.
  intros parser w1 w2 f1 f2 n1 n2 a1 a2 m1 m2 w1' w2' Hfs1 Hfs2 Hhead H1 H2.
  assert (forall w f n a m w',
             fs w !! f = Some n -> nifti_gpu_load f w = (inr (a, m), w') ->
             exists h, Nifti1Header_init (take sizeof_hdr (content n)) = inr h
                       /\ m = metadata h) as Hmeta.
  { intros w f n a m w' Hfs Hload.
    destruct (mode n) eqn:Hmode.
    - rewrite (nifti_gpu_load_readable w f n Hfs Hmode) in Hload.
      rewrite decode_image_reinterpret in Hload.
      destruct (Nifti1Header_init (take sizeof_hdr (content n))) as [e | h];
        [discriminate |].
      exists h. split; [reflexivity |].
      unfold mbind, result_bind, rbind, mret, result_ret in Hload.
      destruct (reinterpret _ _ _ _); [discriminate |].
      congruence.
    - rewrite (nifti_gpu_load_denied w f n Hfs Hmode) in Hload. discriminate.
    - rewrite (nifti_gpu_load_faulty w f n Hfs Hmode) in Hload. discriminate. }
  destruct (Hmeta _ _ _ _ _ _ Hfs1 H1) as (h1 & Hi1 & ->).
  destruct (Hmeta _ _ _ _ _ _ Hfs2 H2) as (h2 & Hi2 & ->).
  rewrite Hhead in Hi1. congruence.
Qed.

Lemma metadata_depends_on_header_bytes_witness :
  exists a1 a2 m1 m2,
    nifti_gpu_load "synthetic.nii" synthetic_world = (inr (a1, m1), synthetic_world) /\
    nifti_gpu_load "other.nii" other_world = (inr (a2, m2), other_world) /\
    drop sizeof_hdr (content synthetic_node) ≠ drop sizeof_hdr (content other_node) /\
    m1 = m2.
Proof.
  do 4 eexists.
  split; [apply (nifti_gpu_load_wellformed _ _ _ _ synthetic_wellformed) |].
  split; [apply (nifti_gpu_load_wellformed _ _ _ _ other_wellformed) |].
  split; [vm_compute; discriminate |].
  eapply (metadata_depends_on_header_bytes MiniNifti1.parser
            synthetic_world other_world "synthetic.nii" "other.nii"
            synthetic_node other_node).
  - apply lookup_singleton_eq.
  - apply lookup_singleton_eq.
  - vm_compute. reflexivity.
  - apply (nifti_gpu_load_wellformed _ _ _ _ synthetic_wellformed).
  - apply (nifti_gpu_load_wellformed _ _ _ _ other_wellformed).
Defined.

(** ** Further properties of the loader *)

Lemma clamp_index_range (n i : Z) : 0 ≤ n -> 0 ≤ clamp_index n i ≤ n.
Proof. intros Hn. unfold clamp_index. destruct (Z.ltb_spec i 0); lia. Qed.

Lemma getslice_filled_from (bs : list byte) (start : Z) :
  let o := clamp_index (Z.of_nat (length bs)) start in
  getslice (filled bs) (Some start) None
  = inr {| nd_base := bs; nd_offset := o; nd_dtype := uint8;
           nd_shape := [Z.of_nat (length bs) - o]; nd_strides := [1] |}.
Proof.
  intros o. unfold getslice, filled, slice_indices. cbn. fold o.
  pose proof (clamp_index_range (Z.of_nat (length bs)) start) as Ho. fold o in Ho.
  f_equal. f_equal; [lia |]. f_equal. lia.
Qed.

Lemma reshape_contiguous (bs : list byte) (o n : Z) (dt : dtype) (shape : list Z) :
  ndarray_reshape_F {| nd_base := bs; nd_offset := o; nd_dtype := dt;
                       nd_shape := [n]; nd_strides := [itemsize dt] |} shape
  = (shape' ← resolve_shape n shape;
     mret {| nd_base := bs; nd_offset := o; nd_dtype := dt;
             nd_shape := shape'; nd_strides := f_strides (itemsize dt) shape' |}).
Proof.
  unfold ndarray_reshape_F, nd_size.
  cbn [nd_dtype nd_shape nd_strides nd_base nd_offset prod fold_right].
  rewrite Z.mul_1_r, Z.eqb_refl. reflexivity.
Qed.

(** The return expression on the filled buffer, for any offset and shape *)
Lemma reinterpret_general (bs : list byte) (off : Z) (dt : dtype) (shape : list Z) :
  let o := clamp_index (Z.of_nat (length bs)) off in
  let L := Z.of_nat (length bs) - o in
  reinterpret bs off dt shape
  = if L mod itemsize dt =? 0 then
      shape' ← resolve_shape (L / itemsize dt) shape;
      mret {| nd_base := bs; nd_offset := o; nd_dtype := dt;
              nd_shape := shape'; nd_strides := f_strides (itemsize dt) shape' |}
    else raise ValueError.
Proof.
  intros o L. unfold reinterpret. rewrite getslice_filled_from.
  unfold mbind at 1, result_bind at 1, rbind at 1. fold o. fold L.
  rewrite view_payload. fold L.
  destruct (L mod itemsize dt =? 0); [| reflexivity].
  unfold mbind at 1, result_bind at 1, rbind at 1. apply reshape_contiguous.
Qed.

Lemma resolve_shape_error (size : Z) (shape : list Z) (e : exn) :
  resolve_shape size shape = inl e -> e = ValueError.
Proof.
  unfold resolve_shape, raise.
  destruct (filter _ _) as [| ? [| ? ?]]; try congruence.
  - destruct (_ =? _); congruence.
  - destruct (_ || _); congruence.
Qed.

Lemma reinterpret_error (bs : list byte) (off : Z) (dt : dtype) (shape : list Z) (e : exn) :
  reinterpret bs off dt shape = inl e -> e = ValueError.
Proof.
  rewrite reinterpret_general. destruct (_ =? 0); [| unfold raise; congruence].
  destruct (resolve_shape _ _) eqn:Hr; cbn; [| discriminate].
  intros [= <-]. eapply resolve_shape_error, Hr.
Qed.

Lemma reinterpret_view (bs : list byte) (off : Z) (dt : dtype) (shape : list Z)
    (arr : ndarray) :
  reinterpret bs off dt shape = inr arr ->
  nd_base arr = bs /\ nd_dtype arr = dt /\
  nd_offset arr = clamp_index (Z.of_nat (length bs)) off /\
  nd_strides arr = f_strides (itemsize dt) (nd_shape arr).
Proof.
  rewrite reinterpret_general. destruct (_ =? 0); [| discriminate].
  destruct (resolve_shape _ _); cbn; [discriminate |].
  intros [= <-]. cbn. auto.
Qed.

Lemma no_negative_extent (q : Z) (shape : list Z) :
  filter (fun d => bool_decide (d < 0)) shape = [] ->
  map (fun d => if d <? 0 then q else d) shape = shape /\
  filter (fun d => bool_decide (0 ≤ d)) shape = shape.
Proof.
  induction shape as [| d l IH]; [auto |].
  rewrite !filter_cons. case_bool_decide; [discriminate |].
  intros Hl. destruct (IH Hl) as [IH1 IH2].
  rewrite bool_decide_eq_true_2 by lia. cbn. rewrite IH1, IH2.
  destruct (Z.ltb_spec d 0); [lia | auto].
Qed.

Lemma prod_cons (d : Z) (l : list Z) : prod (d :: l) = d * prod l.
Proof. reflexivity. Qed.

Lemma prod_inferred (q : Z) (shape : list Z) :
  forall x : Z,
    filter (fun d => bool_decide (d < 0)) shape = [x] ->
    prod (map (fun d => if d <? 0 then q else d) shape)
    = q * prod (filter (fun d => bool_decide (0 ≤ d)) shape).
Proof.
  induction shape as [| d l IH]; intros x; [discriminate |].
  rewrite !filter_cons, map_cons, prod_cons. case_bool_decide as Hd.
  - intros [= _ Hl]. destruct (no_negative_extent q l Hl) as [H1 H2].
    rewrite bool_decide_eq_false_2 by lia. rewrite H1, H2.
    destruct (Z.ltb_spec d 0); [reflexivity | lia].
  - intros Hl. rewrite bool_decide_eq_true_2 by lia.
    change (filter (fun d => bool_decide (d < 0)) l = [x]) in Hl.
    match goal with
    | |- _ = q * prod ?t =>
        change t with (d :: filter (fun d => bool_decide (0 ≤ d)) l)
    end.
    rewrite prod_cons, (IH x Hl). destruct (Z.ltb_spec d 0); [lia | ring].
Qed.

(** What [reshape] returns has the size of the array, and keeps every
    extent that was not negative. *)
Lemma resolve_shape_result (size : Z) (shape shape' : list Z) :
  resolve_shape size shape = inr shape' ->
  prod shape' = size /\ Forall2 (fun d d' => 0 ≤ d -> d' = d) shape shape'.
Proof.
  unfold resolve_shape.
  destruct (filter (fun d => bool_decide (d < 0)) shape) as [| x [| ? ?]] eqn:Hneg;
    [| | discriminate].
  - destruct (Z.eqb_spec (prod shape) size); [| discriminate].
    intros [= <-]. split; [assumption |].
    clear. induction shape; constructor; auto.
  - set (known := prod (filter (fun d => bool_decide (0 ≤ d)) shape)).
    destruct (Z.eqb_spec known 0); [discriminate |].
    destruct (Z.eqb_spec (size mod known) 0) as [Hmod |]; [| discriminate].
    cbn. intros [= <-]. split.
    + rewrite (prod_inferred _ _ x Hneg). fold known.
      apply Z.div_exact in Hmod; [| assumption]. lia.
    + clear. generalize (size `div` known). intros q.
      induction shape as [| d l IH]; cbn [map]; constructor; [| exact IH].
      intros Hd. destruct (Z.ltb_spec d 0); [lia | reflexivity].
Qed.

Lemma reinterpret_result (bs : list byte) (off : Z) (dt : dtype) (shape : list Z)
    (arr : ndarray) :
  reinterpret bs off dt shape = inr arr ->
  nd_base arr = bs /\ nd_dtype arr = dt /\
  nd_offset arr = clamp_index (Z.of_nat (length bs)) off /\
  nd_strides arr = f_strides (itemsize dt) (nd_shape arr) /\
  Forall2 (fun d d' => 0 ≤ d -> d' = d) shape (nd_shape arr) /\
  nd_size arr * itemsize dt = Z.of_nat (length bs) - nd_offset arr.
Proof.
  rewrite reinterpret_general. cbv zeta.
  set (L := Z.of_nat (length bs) - clamp_index (Z.of_nat (length bs)) off).
  pose proof (itemsize_pos dt) as Hw.
  destruct (Z.eqb_spec (L mod itemsize dt) 0) as [Hmod |]; [| discriminate].
  destruct (resolve_shape _ _) as [| shape'] eqn:Hr; cbn; [discriminate |].
  intros [= <-]. apply resolve_shape_result in Hr as [Hprod Hkeep].
  unfold nd_size. cbn [nd_base nd_dtype nd_offset nd_strides nd_shape].
  rewrite Hprod. apply Z.div_exact in Hmod; [| lia]. fold L.
  repeat split; auto. lia.
Qed.

(** X1.  Whenever the accelerated loader returns, the path names a readable
    file whose first 348 bytes the parser accepted, the metadata is that of
    this header, and the array is a view, not a copy: its buffer is the whole
    file, header included; it starts at the data offset clamped to the file,
    as Python slicing clamps it; it has the element type of the header and
    the column-major strides of its shape; every declared extent that is not
    negative is kept; and its elements take up exactly the bytes from where
    it starts to the end of the file. *)
Theorem nifti_gpu_load_returns_view :
  forall (parser : HeaderParser) (w : world) (filename : string)
         (arr : ndarray) (meta : gmap string pyobj),
    (nifti_gpu_load filename w).1 = inr (arr, meta) ->
    exists node h,
      fs w !! filename = Some node /\ mode node = Readable /\
      Nifti1Header_init (take sizeof_hdr (content node)) = inr h /\
      meta = metadata h /\
      nd_base arr = content node /\
      nd_dtype arr = get_data_dtype h /\
      nd_offset arr
        = clamp_index (Z.of_nat (length (content node))) (get_data_offset h) /\
      nd_strides arr = f_strides (itemsize (get_data_dtype h)) (nd_shape arr) /\
      Forall2 (fun d d' => 0 ≤ d -> d' = d) (get_data_shape h) (nd_shape arr) /\
      nd_size arr * itemsize (get_data_dtype h)
        = Z.of_nat (length (content node)) - nd_offset arr.
Proof.
  intros parser w filename arr meta.
  destruct (fs w !! filename) as [node |] eqn:Hfs.
  - destruct (mode node) eqn:Hmode.
    + rewrite (nifti_gpu_load_readable w filename node Hfs Hmode).
      cbn [fst]. rewrite decode_image_reinterpret.
      destruct (Nifti1Header_init (take sizeof_hdr (content node))) as [e | h] eqn:Hinit;
        [discriminate |].
      unfold mbind at 1, result_bind at 1, rbind at 1.
      destruct (reinterpret _ _ _ _) as [e | arr'] eqn:Hre; cbn; [discriminate |].
      intros [= <- <-]. exists node, h.
      do 2 (split; [reflexivity || assumption |]).
      split; [exact Hinit |]. split; [reflexivity |].
      apply reinterpret_result, Hre.
    + rewrite (nifti_gpu_load_denied w filename node Hfs Hmode). discriminate.
    + rewrite (nifti_gpu_load_faulty w filename node Hfs Hmode). discriminate.
  - rewrite (nifti_gpu_load_missing w filename Hfs). discriminate.
Qed.

Lemma nifti_gpu_load_returns_view_witness :
  exists arr meta,
    nifti_gpu_load "synthetic.nii" synthetic_world = (inr (arr, meta), synthetic_world) /\
    nd_base arr = MiniNifti1.synthetic_file /\
    nd_offset arr = 352 /\
    nd_size arr * 2 = 480 - nd_offset arr.
Proof.
  pose proof (nifti_gpu_load_wellformed _ _ _ _ synthetic_wellformed) as Hload.
  eexists _, _. split; [exact Hload |].
  destruct (nifti_gpu_load_returns_view MiniNifti1.parser synthetic_world
              "synthetic.nii" _ _ (f_equal fst Hload))
    as (node & h & Hfs & _ & Hinit & _ & Hbase & _ & Hoff & _ & _ & Hsize).
  unfold synthetic_world, MiniNifti1.one_file in Hfs. cbn [fs] in Hfs.
  rewrite lookup_singleton_eq in Hfs. apply (inj Some) in Hfs. subst node.
  cbn [content] in Hinit, Hbase, Hoff, Hsize.
  assert (Nifti1Header_init (take sizeof_hdr MiniNifti1.synthetic_file)
          = inr synthetic_header) as Hsyn by (vm_compute; reflexivity).
  rewrite Hsyn in Hinit. apply (inj inr) in Hinit. subst h.
  split; [exact Hbase |]. split.
  - rewrite Hoff. vm_compute. reflexivity.
  - assert (itemsize (get_data_dtype synthetic_header) = 2) as Hw
      by (vm_compute; reflexivity).
    assert (Z.of_nat (length MiniNifti1.synthetic_file) = 480) as Hlen
      by (vm_compute; reflexivity).
    rewrite Hw, Hlen in Hsize. exact Hsize.
Defined.

Lemma resolve_shape_nonneg (size : Z) (shape : list Z) :
  Forall (fun d => 0 ≤ d) shape ->
  resolve_shape size shape
  = if prod shape =? size then inr shape else raise ValueError.
Proof.
  intros Hpos. unfold resolve_shape.
  assert (filter (fun d => bool_decide (d < 0)) shape = []) as ->.
  { induction Hpos as [| d l Hd _ IH]; [reflexivity |].
    rewrite filter_cons, IH. rewrite bool_decide_eq_false_2 by lia. reflexivity. }
  reflexivity.
Qed.

Section EdgeFacts.
Context {parser : HeaderParser}.

Lemma nifti_gpu_load_parsed w filename node h :
  fs w !! filename = Some node -> mode node = Readable ->
  Nifti1Header_init (take sizeof_hdr (content node)) = inr h ->
  nifti_gpu_load filename w
  = (arr ← reinterpret (content node) (get_data_offset h) (get_data_dtype h)
             (get_data_shape h);
     mret (arr, metadata h), w).
Proof.
  intros Hfs Hmode Hinit.
  rewrite (nifti_gpu_load_readable w filename node Hfs Hmode).
  now rewrite decode_image_reinterpret, Hinit.
Qed.

End EdgeFacts.

(** X2.  For a header whose extents are not negative, the accelerated loader
    succeeds exactly when the declared byte count (element count times item
    size) equals the number of bytes from the clamped data offset to the end
    of the file, and raises [ValueError] otherwise.  The offset is clamped as
    a Python slice start: an offset past the end leaves no bytes, a negative
    offset counts from the end.  So a header that declares an empty array
    loads without error when its data offset lies at or beyond the end of the
    file. *)
Theorem nifti_gpu_load_fits_exactly :
  forall (parser : HeaderParser) (w : world) (filename : string)
         (node : filenode) (h : header),
    fs w !! filename = Some node ->
    mode node = Readable ->
    Nifti1Header_init (take sizeof_hdr (content node)) = inr h ->
    Forall (fun d => 0 ≤ d) (get_data_shape h) ->
    let o := clamp_index (Z.of_nat (length (content node))) (get_data_offset h) in
    (prod (get_data_shape h) * itemsize (get_data_dtype h)
       = Z.of_nat (length (content node)) - o ->
     nifti_gpu_load filename w
     = (inr ({| nd_base := content node; nd_offset := o;
                nd_dtype := get_data_dtype h; nd_shape := get_data_shape h;
                nd_strides := f_strides (itemsize (get_data_dtype h)) (get_data_shape h) |},
             metadata h), w)) /\
    (prod (get_data_shape h) * itemsize (get_data_dtype h)
       ≠ Z.of_nat (length (content node)) - o ->
     nifti_gpu_load filename w = (inl ValueError, w)).
Proof.
  intros parser w filename node h Hfs Hmode Hinit Hshape o.
  rewrite (nifti_gpu_load_parsed w filename node h Hfs Hmode Hinit).
  rewrite reinterpret_general. fold o.
  rewrite resolve_shape_nonneg by assumption.
  pose proof (itemsize_pos (get_data_dtype h)) as Hw.
  set (L := Z.of_nat (length (content node)) - o).
  split; intros HL.
  - rewrite <- HL, Z.mod_mul, Z.div_mul by lia. now rewrite !Z.eqb_refl.
  - destruct (Z.eqb_spec (L mod itemsize (get_data_dtype h)) 0) as [Hmod | Hmod];
      [| reflexivity].
    destruct (Z.eqb_spec (prod (get_data_shape h)) (L / itemsize (get_data_dtype h)))
      as [Hprod | Hprod]; [| reflexivity].
    exfalso. apply HL. apply Z.div_exact in Hmod; [| lia].
    rewrite Hmod, Hprod. ring.
Qed.

Lemma nifti_gpu_load_fits_exactly_witness :
  get_data_shape empty_shape_header = [0] /\
  get_data_offset empty_shape_header = 1000 /\
  length empty_shape_file = 352%nat /\
  nifti_gpu_load "empty.nii" empty_shape_world
  = (inr ({| nd_base := empty_shape_file; nd_offset := 352; nd_dtype := uint8;
             nd_shape := [0]; nd_strides := [1] |},
          metadata empty_shape_header), empty_shape_world).
Proof.
  do 3 (split; [vm_compute; reflexivity |]).
  assert (Forall (fun d => 0 ≤ d) (get_data_shape empty_shape_header)) as Hshape.
  { assert (get_data_shape empty_shape_header = [0]) as -> by (vm_compute; reflexivity).
    constructor; [lia | constructor]. }
  destruct (nifti_gpu_load_fits_exactly MiniNifti1.parser empty_shape_world "empty.nii"
              empty_shape_node empty_shape_header
              (lookup_singleton_eq _ _) eq_refl
              ltac:(vm_compute; reflexivity) Hshape) as [Hfit _].
  rewrite Hfit by (vm_compute; reflexivity).
  assert (clamp_index (Z.of_nat (length (content empty_shape_node)))
            (get_data_offset empty_shape_header) = 352) as -> by (vm_compute; reflexivity).
  assert (get_data_dtype empty_shape_header = uint8) as -> by (vm_compute; reflexivity).
  assert (get_data_shape empty_shape_header = [0]) as -> by (vm_compute; reflexivity).
  reflexivity.
Defined.

Lemma negative_extents_are_minus_one (shape : list Z) :
  Forall (fun d => d = -1 \/ 0 < d) shape ->
  filter (fun d => bool_decide (d < 0)) shape
  = filter (fun d => bool_decide (d = -1)) shape /\
  filter (fun d => bool_decide (0 ≤ d)) shape
  = filter (fun d => bool_decide (d <> -1)) shape /\
  forall q : Z,
    map (fun d => if d <? 0 then q else d) shape
    = (fun d => if d =? -1 then q else d) <$> shape.
Proof.
  induction 1 as [| d l Hd _ (IH1 & IH2 & IH3)]; [auto |].
  rewrite !filter_cons, IH1, IH2. split; [| split].
  - repeat case_bool_decide; auto; lia.
  - repeat case_bool_decide; auto; lia.
  - intros q. cbn. rewrite IH3. f_equal.
    destruct (Z.ltb_spec d 0), (Z.eqb_spec d (-1)); auto; lia.
Qed.

Lemma known_extents_positive (shape : list Z) :
  Forall (fun d => d = -1 \/ 0 < d) shape ->
  0 < prod (filter (fun d => bool_decide (d <> -1)) shape).
Proof.
  induction 1 as [| d l Hd _ IH]; [reflexivity |].
  rewrite filter_cons. case_bool_decide; [| exact IH]. simpl. lia.
Qed.

(** X3.  A header extent of -1 is not refused: when exactly one extent is -1
    and the others are positive, [reshape] infers it, and the loader returns
    an array whose shape has the -1 replaced by the number of elements after
    the data offset divided by the product of the other extents, provided the
    divisions are exact. *)
Theorem nifti_gpu_load_infers_extent :
  forall (parser : HeaderParser) (w : world) (filename : string)
         (node : filenode) (h : header),
    fs w !! filename = Some node ->
    mode node = Readable ->
    Nifti1Header_init (take sizeof_hdr (content node)) = inr h ->
    Forall (fun d => d = -1 \/ 0 < d) (get_data_shape h) ->
    filter (fun d => bool_decide (d = -1)) (get_data_shape h) = [-1] ->
    let o := clamp_index (Z.of_nat (length (content node))) (get_data_offset h) in
    let n := (Z.of_nat (length (content node)) - o) / itemsize (get_data_dtype h) in
    let known := prod (filter (fun d => bool_decide (d <> -1)) (get_data_shape h)) in
    (Z.of_nat (length (content node)) - o) mod itemsize (get_data_dtype h) = 0 ->
    n mod known = 0 ->
    nifti_gpu_load filename w
    = (inr ({| nd_base := content node; nd_offset := o;
               nd_dtype := get_data_dtype h;
               nd_shape := (fun d => if d =? -1 then n / known else d)
                             <$> get_data_shape h;
               nd_strides :=
                 f_strides (itemsize (get_data_dtype h))
                   ((fun d => if d =? -1 then n / known else d) <$> get_data_shape h) |},
            metadata h), w).
Proof.
  intros parser w filename node h Hfs Hmode Hinit Hshape Hone o n known Hmod Hknown.
  rewrite (nifti_gpu_load_parsed w filename node h Hfs Hmode Hinit).
  rewrite reinterpret_general. fold o. rewrite Hmod, Z.eqb_refl. fold n.
  unfold resolve_shape.
  destruct (negative_extents_are_minus_one _ Hshape) as (-> & -> & ->).
  rewrite Hone. fold known.
  pose proof (known_extents_positive _ Hshape) as Hpos. fold known in Hpos.
  destruct (Z.eqb_spec known 0); [lia |].
  rewrite Hknown. reflexivity.
Qed.

Lemma nifti_gpu_load_infers_extent_witness :
  get_data_shape infer_header = [-1] /\
  nifti_gpu_load "infer.nii" infer_world
  = (inr ({| nd_base := infer_file; nd_offset := 352; nd_dtype := uint8;
             nd_shape := [10]; nd_strides := [1] |},
          metadata infer_header), infer_world).
Proof.
  split; [vm_compute; reflexivity |].
  assert (get_data_shape infer_header = [-1]) as Hs by (vm_compute; reflexivity).
  rewrite (nifti_gpu_load_infers_extent MiniNifti1.parser infer_world "infer.nii"
             infer_node infer_header (lookup_singleton_eq _ _) eq_refl).
  - rewrite Hs.
    assert (clamp_index (Z.of_nat (length (content infer_node)))
              (get_data_offset infer_header) = 352) as -> by (vm_compute; reflexivity).
    assert (get_data_dtype infer_header = uint8) as -> by (vm_compute; reflexivity).
    reflexivity.
  - vm_compute. reflexivity.
  - rewrite Hs. repeat constructor.
  - rewrite Hs. reflexivity.
  - vm_compute. reflexivity.
  - rewrite Hs. vm_compute. reflexivity.
Defined.

Lemma norm_index_some (d i : Z) : is_Some (norm_index d i) <-> - d ≤ i < d.
Proof.
  unfold norm_index.
  destruct (Z.leb_spec 0 i), (Z.ltb_spec i d), (Z.leb_spec (- d) i), (Z.ltb_spec i 0);
    cbn; (split; [intros Hsome | intros Hin]);
    first [lia | now destruct Hsome | now eexists].
Qed.

Lemma f_linear_some (shape : list Z) :
  forall idx : list Z,
    is_Some (f_linear shape idx) <-> Forall2 (fun d i => - d ≤ i < d) shape idx.
Proof.
  induction shape as [| d ds IH]; intros [| i idx]; cbn.
  - split; [constructor | eauto].
  - split; [intros [? [=]] | inversion 1].
  - split; [intros [? [=]] | inversion 1].
  - specialize (IH idx). pose proof (norm_index_some d i) as Hn.
    destruct (norm_index d i) as [i' |].
    + destruct (f_linear ds idx) as [r |].
      * split; [| eauto]. intros _. constructor; [apply Hn; eauto | apply IH; eauto].
      * split; [intros [? [=]] |]. inversion 1; subst.
        apply IH in H5 as [? [=]].
    + split; [intros [? [=]] |]. inversion 1; subst.
      apply Hn in H3 as [? [=]].
Qed.

Lemma item_offset_f_strides_none (shape : list Z) :
  forall (w : Z) (idx : list Z),
    f_linear shape idx = None -> item_offset shape (f_strides w shape) idx = None.
Proof.
  induction shape as [| d ds IH]; intros w [| i idx]; cbn; try discriminate; auto.
  destruct (norm_index d i) as [i' |]; [| reflexivity].
  destruct (f_linear ds idx) as [r |] eqn:Hr; [discriminate |].
  intros _. now rewrite (IH (w * d) idx Hr).
Qed.

Lemma index_axes_full (shape : list Z) :
  forall (w : Z) (idx : list Z) (k : Z),
    f_linear shape idx = Some k ->
    index_axes shape (f_strides w shape) idx = Some (w * k, ([], [])).
Proof.
  induction shape as [| d ds IH]; intros w [| i idx] k; cbn; try discriminate.
  - intros [= <-]. do 2 f_equal. lia.
  - destruct (norm_index d i) as [i' |]; [| discriminate].
    destruct (f_linear ds idx) as [r |] eqn:Hr; [| discriminate].
    intros [= <-]. rewrite (IH (w * d) idx r Hr). do 2 f_equal. ring.
Qed.

Lemma index_axes_some (idx : list Z) :
  forall shape strides : list Z,
    length strides = length shape ->
    Forall2 (fun d i => - d ≤ i < d) (take (length idx) shape) idx ->
    exists pos,
      index_axes shape strides idx
      = Some (pos, (drop (length idx) shape, drop (length idx) strides)).
Proof.
  induction idx as [| i idx IH]; intros shape strides Hlen Hidx; [now exists 0 |].
  destruct shape as [| d ds]; [inversion Hidx |].
  destruct strides as [| s ss]; [discriminate |].
  cbn [length take] in Hidx. inversion Hidx as [| ? ? ? ? Hi Hrest]; subst.
  destruct (IH ds ss) as [r Hr]; [now injection Hlen | exact Hrest |].
  apply norm_index_some in Hi as [i' Hi'].
  cbn. rewrite Hi', Hr. eauto.
Qed.

Lemma index_axes_none (idx : list Z) :
  forall shape strides : list Z,
    ~ Forall2 (fun d i => - d ≤ i < d) (take (length idx) shape) idx ->
    index_axes shape strides idx = None.
Proof.
  induction idx as [| i idx IH]; intros shape strides Hidx.
  - exfalso. apply Hidx. constructor.
  - destruct shape as [| d ds]; [reflexivity |].
    destruct strides as [| s ss]; [reflexivity |].
    cbn. destruct (norm_index d i) as [i' |] eqn:Hi; [| reflexivity].
    rewrite (IH ds ss); [reflexivity |].
    intros Hrest. apply Hidx. cbn [length take]. constructor; [| exact Hrest].
    apply norm_index_some. eauto.
Qed.

Lemma index_axes_app (idx : list Z) :
  forall shape strides rest : list Z,
    index_axes shape strides (idx ++ rest)
    = match index_axes shape strides idx with
      | Some (p, (sh, st)) =>
          match index_axes sh st rest with
          | Some (q, r) => Some (p + q, r)
          | None => None
          end
      | None => None
      end.
Proof.
  induction idx as [| i idx IH]; intros shape strides rest.
  - cbn. now destruct (index_axes shape strides rest) as [[q r] |].
  - destruct shape as [| d ds]; [reflexivity |].
    destruct strides as [| s ss]; [reflexivity |].
    cbn. destruct (norm_index d i) as [i' |]; [| reflexivity].
    rewrite IH. destruct (index_axes ds ss idx) as [[p [sh st]] |]; [| reflexivity].
    destruct (index_axes sh st rest) as [[q r] |]; [| reflexivity].
    now rewrite Z.add_assoc.
Qed.

(** Indexing a view that an index returned continues that index. *)
Lemma subscript_subscript (a sub : ndarray) (idx rest : list Z) :
  subscript a idx = inr (inr sub) -> subscript sub rest = subscript a (idx ++ rest).
Proof.
  unfold subscript. rewrite index_axes_app.
  destruct (index_axes (nd_shape a) (nd_strides a) idx) as [[p [sh st]] |];
    [| discriminate].
  destruct sh as [| d sh]; [discriminate |].
  intros [= <-]. cbn [nd_shape nd_strides nd_base nd_dtype nd_offset].
  destruct (index_axes (d :: sh) st rest) as [[q [[| d' sh'] st']] |]; [| | reflexivity].
  - unfold item_bytes. cbn [nd_base nd_dtype nd_offset]. now rewrite Z.add_assoc.
  - now rewrite Z.add_assoc.
Qed.

(** X4.  Indexing the array of a well-formed file with a tuple of integers,
    each entry in [-d, d) for the extent d of its axis (negative entries
    count from the end).  With one entry per axis it reads one whole item
    that lies between the data offset and the end of the file, at the
    index's column-major position.  With fewer entries it returns a view on
    the remaining axes that shares the file's buffer, and indexing that view
    continues the index.  An entry out of range, or more entries than axes,
    raises [IndexError]. *)
Theorem nifti_gpu_load_indexing :
  forall (parser : HeaderParser) (w : world) (filename : string)
         (node : filenode) (h : header),
    wellformed_image_file w filename node h ->
    exists arr meta,
      nifti_gpu_load filename w = (inr (arr, meta), w) /\
      forall idx : list Z,
        (Forall2 (fun d i => - d ≤ i < d) (get_data_shape h) idx ->
         exists k,
           f_linear (get_data_shape h) idx = Some k /\
           subscript arr idx = inr (inl (payload_item node h k)) /\
           getitem arr idx = inr (payload_item node h k) /\
           get_data_offset h ≤ get_data_offset h + itemsize (get_data_dtype h) * k /\
           get_data_offset h + itemsize (get_data_dtype h) * k
             + itemsize (get_data_dtype h) ≤ Z.of_nat (length (content node))) /\
        ((length idx < length (get_data_shape h))%nat ->
         Forall2 (fun d i => - d ≤ i < d) (take (length idx) (get_data_shape h)) idx ->
         exists sub,
           subscript arr idx = inr (inr sub) /\
           nd_base sub = content node /\
           nd_dtype sub = get_data_dtype h /\
           nd_shape sub = drop (length idx) (get_data_shape h) /\
           forall rest : list Z, subscript sub rest = subscript arr (idx ++ rest)) /\
        (~ Forall2 (fun d i => - d ≤ i < d) (take (length idx) (get_data_shape h)) idx ->
         subscript arr idx = inl IndexError).
Proof.
  intros parser w filename node h Hwf.
  do 2 eexists. split; [apply (nifti_gpu_load_wellformed w filename node h Hwf) |].
  destruct Hwf as (_ & _ & _ & Hoff & Hpos & Hfit).
  pose proof (itemsize_pos (get_data_dtype h)) as Hw.
  intros idx. split; [| split].
  - intros Hin. apply f_linear_some in Hin as [k Hk]. exists k.
    split; [exact Hk |]. split; [| split].
    + unfold subscript. cbn [nd_shape nd_strides nd_dtype].
      now rewrite (index_axes_full _ _ _ _ Hk).
    + unfold getitem. cbn [nd_shape nd_strides nd_dtype].
      now rewrite (item_offset_f_strides _ _ _ _ Hk).
    + apply f_linear_range in Hk. nia.
  - intros Hshort Hin.
    destruct (index_axes_some idx (get_data_shape h)
                (f_strides (itemsize (get_data_dtype h)) (get_data_shape h)))
      as [pos Hpos']; [| exact Hin |].
    { clear. generalize (itemsize (get_data_dtype h)).
      induction (get_data_shape h) as [| d l IH]; intros w; [reflexivity |].
      cbn. now rewrite IH. }
    assert (exists d rest, drop (length idx) (get_data_shape h) = d :: rest)
      as (d & rest & Hdrop).
    { destruct (drop (length idx) (get_data_shape h)) as [| d rest] eqn:Hd; [| eauto].
      apply (f_equal length) in Hd. rewrite length_drop in Hd. cbn in Hd. lia. }
    eexists. split.
    + unfold subscript. cbn [nd_shape nd_strides nd_dtype nd_base nd_offset].
      rewrite Hpos', Hdrop. reflexivity.
    + cbn [nd_base nd_dtype nd_shape]. do 3 (split; [reflexivity || (symmetry; exact Hdrop) |]).
      intros rest'. apply subscript_subscript.
      unfold subscript. cbn [nd_shape nd_strides nd_dtype nd_base nd_offset].
      rewrite Hpos', Hdrop. reflexivity.
  - intros Hout. unfold subscript. cbn [nd_shape nd_strides].
    now rewrite index_axes_none.
Qed.

Lemma nifti_gpu_load_indexing_witness :
  exists arr meta,
    nifti_gpu_load "synthetic.nii" synthetic_world = (inr (arr, meta), synthetic_world) /\
    subscript arr [-1; -1; -1] = inr (inl (SInt 63)) /\
    (exists sub,
        subscript arr [0; 3] = inr (inr sub) /\
        nd_shape sub = [4] /\
        subscript sub [2] = inr (inl (SInt 44))) /\
    subscript arr [4; 0; 0] = inl IndexError /\
    subscript arr [0; 0; 0; 0] = inl IndexError.
Proof.
  destruct (nifti_gpu_load_indexing MiniNifti1.parser synthetic_world "synthetic.nii"
              synthetic_node synthetic_header synthetic_wellformed)
    as (arr & meta & Hload & Hidx).
  exists arr, meta. split; [exact Hload |].
  assert (get_data_shape synthetic_header = [4; 4; 4]) as Hs by (vm_compute; reflexivity).
  split; [| split; [| split]].
  - destruct (proj1 (Hidx [-1; -1; -1])) as (k & Hk & Hget & _).
    { rewrite Hs. repeat constructor; lia. }
    rewrite Hget. rewrite Hs in Hk. cbn in Hk. apply (inj Some) in Hk. subst k.
    vm_compute. reflexivity.
  - destruct (proj1 (proj2 (Hidx [0; 3]))) as (sub & Hsub & _ & _ & Hshape & Hrest).
    { rewrite Hs. cbn. lia. }
    { rewrite Hs. cbn. repeat constructor; lia. }
    exists sub. split; [exact Hsub |]. split; [rewrite Hshape, Hs; reflexivity |].
    rewrite Hrest. cbn [app].
    destruct (proj1 (Hidx [0; 3; 2])) as (k & Hk & Hget & _).
    { rewrite Hs. repeat constructor; lia. }
    rewrite Hget. rewrite Hs in Hk. cbn in Hk. apply (inj Some) in Hk. subst k.
    vm_compute. reflexivity.
  - apply (proj2 (proj2 (Hidx [4; 0; 0]))). rewrite Hs. cbn. intros Hin.
    apply Forall2_cons in Hin as [Hin _]. lia.
  - apply (proj2 (proj2 (Hidx [0; 0; 0; 0]))). rewrite Hs. cbn. intros Hin.
    apply Forall2_length in Hin. discriminate.
Defined.

Lemma f_linear_onto (shape : list Z) :
  Forall (fun d => 0 < d) shape ->
  forall k, 0 ≤ k < prod shape ->
  exists idx, Forall2 (fun d i => 0 ≤ i < d) shape idx /\ f_linear shape idx = Some k.
Proof.
  induction 1 as [| d ds Hd _ IH]; intros k Hk.
  - exists []. split; [constructor |]. change (prod []) with 1 in Hk.
    cbn. f_equal. lia.
  - change (prod (d :: ds)) with (d * prod ds) in Hk.
    destruct (IH (k / d)) as (idx & Hidx & Hr).
    { split; [apply Z.div_pos; lia |]. apply Z.div_lt_upper_bound; lia. }
    exists (k mod d :: idx).
    pose proof (Z.mod_pos_bound k d Hd) as Hm.
    split; [constructor; assumption |].
    cbn. rewrite norm_index_in, Hr by assumption. f_equal.
    rewrite (Z.div_mod k d) at 3 by lia. ring.
Qed.

Lemma f_linear_one_to_one (shape : list Z) :
  forall (idx1 idx2 : list Z) (k : Z),
    Forall2 (fun d i => 0 ≤ i < d) shape idx1 ->
    Forall2 (fun d i => 0 ≤ i < d) shape idx2 ->
    f_linear shape idx1 = Some k -> f_linear shape idx2 = Some k -> idx1 = idx2.
Proof.
  induction shape as [| d ds IH]; intros idx1 idx2 k H1 H2.
  - inversion H1; inversion H2; reflexivity.
  - inversion H1 as [| ? i1 ? r1 Hi1 Hr1]; inversion H2 as [| ? i2 ? r2 Hi2 Hr2]; subst.
    cbn. rewrite !norm_index_in by assumption.
    destruct (f_linear ds r1) as [k1 |] eqn:E1; [| discriminate].
    destruct (f_linear ds r2) as [k2 |] eqn:E2; [| discriminate].
    intros [= <-] [= Heq].
    assert (k1 = k2) as ->.
    { destruct (Z.lt_trichotomy k1 k2) as [Hlt | [Heq' | Hgt]]; [nia | exact Heq' | nia]. }
    assert (i1 = i2) as -> by lia.
    f_equal. eapply IH; eauto.
Qed.

(** X5.  Every item of the payload of a well-formed file appears in the
    returned array exactly once: each column-major position below the element
    count is read by one index with entries in [0, d), and two such indices
    that address the same byte offset are the same index. *)
Theorem nifti_gpu_load_every_voxel_once :
  forall (parser : HeaderParser) (w : world) (filename : string)
         (node : filenode) (h : header),
    wellformed_image_file w filename node h ->
    exists arr meta,
      nifti_gpu_load filename w = (inr (arr, meta), w) /\
      forall k, 0 ≤ k < prod (get_data_shape h) ->
        exists idx,
          Forall2 (fun d i => 0 ≤ i < d) (nd_shape arr) idx /\
          item_offset (nd_shape arr) (nd_strides arr) idx
            = Some (itemsize (get_data_dtype h) * k) /\
          getitem arr idx = inr (payload_item node h k) /\
          forall idx',
            Forall2 (fun d i => 0 ≤ i < d) (nd_shape arr) idx' ->
            item_offset (nd_shape arr) (nd_strides arr) idx'
              = Some (itemsize (get_data_dtype h) * k) ->
            idx' = idx.
Proof.
  intros parser w filename node h Hwf.
  do 2 eexists. split; [apply (nifti_gpu_load_wellformed w filename node h Hwf) |].
  destruct Hwf as (_ & _ & _ & Hoff & Hpos & Hfit).
  pose proof (itemsize_pos (get_data_dtype h)) as Hw.
  intros k Hk. cbn [nd_shape nd_strides].
  destruct (f_linear_onto _ Hpos k Hk) as (idx & Hidx & Hlin).
  exists idx. split; [exact Hidx |].
  split; [apply item_offset_f_strides, Hlin |].
  split.
  - unfold getitem. cbn [nd_shape nd_strides nd_dtype].
    now rewrite (item_offset_f_strides _ _ _ _ Hlin).
  - intros idx' Hidx' Hoff'.
    assert (Forall2 (fun d i => - d ≤ i < d) (get_data_shape h) idx') as Hb.
    { eapply Forall2_impl; [exact Hidx' |]. cbn. intros; lia. }
    apply f_linear_some in Hb as [k' Hk'].
    rewrite (item_offset_f_strides _ _ _ _ Hk') in Hoff'.
    assert (k' = k) as -> by (injection Hoff' as Hmul; nia).
    eapply f_linear_one_to_one; eauto.
Qed.

Lemma nifti_gpu_load_every_voxel_once_witness :
  exists arr meta,
    nifti_gpu_load "synthetic.nii" synthetic_world = (inr (arr, meta), synthetic_world) /\
    exists idx,
      Forall2 (fun d i => 0 ≤ i < d) (nd_shape arr) idx /\
      getitem arr idx = inr (payload_item synthetic_node synthetic_header 57).
Proof.
  destruct (nifti_gpu_load_every_voxel_once MiniNifti1.parser synthetic_world
              "synthetic.nii" synthetic_node synthetic_header synthetic_wellformed)
    as (arr & meta & Hload & Hall).
  exists arr, meta. split; [exact Hload |].
  destruct (Hall 57) as (idx & Hidx & _ & Hget & _).
  { assert (get_data_shape synthetic_header = [4; 4; 4]) as -> by (vm_compute; reflexivity).
    cbn. lia. }
  exists idx. auto.
Defined.

Section DivergenceFacts.
Context {parser : HeaderParser}.

Lemma nifti_gpu_load_success w filename arr meta :
  (nifti_gpu_load filename w).1 = inr (arr, meta) ->
  exists node h,
    fs w !! filename = Some node /\ mode node = Readable /\
    Nifti1Header_init (take sizeof_hdr (content node)) = inr h /\
    meta = metadata h /\
    reinterpret (content node) (get_data_offset h) (get_data_dtype h) (get_data_shape h)
      = inr arr.
Proof.
  destruct (fs w !! filename) as [node |] eqn:Hfs.
  - destruct (mode node) eqn:Hmode.
    + destruct (Nifti1Header_init (take sizeof_hdr (content node))) as [e | h] eqn:Hinit.
      * rewrite (nifti_gpu_load_readable w filename node Hfs Hmode).
        cbn [fst]. rewrite decode_image_reinterpret, Hinit. discriminate.
      * rewrite (nifti_gpu_load_parsed w filename node h Hfs Hmode Hinit). cbn [fst].
        destruct (reinterpret _ _ _ _) as [e | arr'] eqn:Hre; cbn; [discriminate |].
        intros [= <- <-]. exists node, h. auto.
    + rewrite (nifti_gpu_load_denied w filename node Hfs Hmode). discriminate.
    + rewrite (nifti_gpu_load_faulty w filename node Hfs Hmode). discriminate.
  - rewrite (nifti_gpu_load_missing w filename Hfs). discriminate.
Qed.

Lemma array_from_file_enough (shape : list Z) (dt : dtype) (bs : list byte) (off : Z) :
  0 ≤ off -> 0 ≤ prod shape ->
  prod shape * itemsize dt ≤ Z.of_nat (length bs) - off ->
  array_from_file shape dt bs off
  = inr (decode dt <$> items_of (itemsize dt) (prod shape)
           (take (Z.to_nat (prod shape * itemsize dt)) (drop (Z.to_nat off) bs))).
Proof.
  intros Hoff Hp Hfit. unfold array_from_file.
  pose proof (itemsize_pos dt) as Hw.
  destruct (Z.ltb_spec off 0); [lia |].
  assert (0 ≤ prod shape * itemsize dt) as Hn by nia.
  revert Hfit Hn. generalize (prod shape * itemsize dt). intros n Hfit Hn.
  rewrite bool_decide_eq_true_2 by (rewrite length_take, length_drop; lia).
  reflexivity.
Qed.

Lemma item_of_prefix (bs : list byte) (n w k : Z) :
  0 < w -> 0 ≤ k -> k * w + w ≤ n ->
  take (Z.to_nat w) (drop (Z.to_nat (k * w)) (take (Z.to_nat n) bs))
  = take (Z.to_nat w) (drop (Z.to_nat (k * w)) bs).
Proof.
  intros Hw Hk Hn. rewrite !take_drop_commute, take_take. do 2 f_equal.
  assert (0 ≤ k * w) by nia. lia.
Qed.

End DivergenceFacts.

(** X6.  Bytes after the declared payload split the two paths.  When the file
    holds more bytes after the data offset than the header declares (positive
    extents, non-negative offset), the accelerated loader raises [ValueError],
    because it reinterprets everything up to the end of the file; the reference
    path, which reads exactly the declared bytes, loads the image with the
    declared shape and the declared voxels.  The validation cells are then
    never reached. *)
Theorem trailing_bytes_only_reference_loads :
  forall (parser : HeaderParser) (w : world) (filename : string)
         (node : filenode) (hdr : Nifti1Header),
    fs w !! filename = Some node -> mode node = Readable ->
    Nifti1Header_from_fileobj (content node) = inr hdr ->
    0 ≤ get_data_offset (structarr hdr) ->
    Forall (fun d => 0 < d) (get_data_shape (structarr hdr)) ->
    prod (get_data_shape (structarr hdr)) * itemsize (get_data_dtype (structarr hdr))
      < Z.of_nat (length (content node)) - get_data_offset (structarr hdr) ->
    nifti_gpu_load filename w = (inl ValueError, w) /\
    exists img a,
      nib_load filename w = (inr img, w) /\
      get_fdata img w = (inr a, w) /\
      f_shape a = get_data_shape (structarr hdr) /\
      forall k, 0 ≤ k < prod (get_data_shape (structarr hdr)) ->
        f_data a !! Z.to_nat k
        = Some (fdata_item (structarr hdr) (payload_item node (structarr hdr) k)).
Proof.
  intros parser w filename node hdr Hfs Hmode Hparse Hoff Hpos Hlong.
  pose proof (from_fileobj_structarr _ _ Hparse) as Hinit.
  pose proof (prod_pos _ Hpos) as Hp.
  pose proof (itemsize_pos (get_data_dtype (structarr hdr))) as Hw.
  split.
  - rewrite (nifti_gpu_load_parsed w filename node _ Hfs Hmode Hinit).
    rewrite reinterpret_mismatch by (try assumption; lia). reflexivity.
  - eexists _, _. split; [| split; [| split]].
    + unfold nib_load. rewrite Hfs.
      rewrite bool_decide_eq_false_2.
      * now rewrite Hmode, Hparse.
      * apply init_length in Hinit. rewrite length_take in Hinit.
        unfold sizeof_hdr in Hinit. lia.
    + unfold get_fdata. cbn [img_filename img_header]. rewrite Hfs.
      rewrite array_from_file_enough by lia. reflexivity.
    + reflexivity.
    + intros k Hk. cbn [f_data].
      assert (forall raw : list scalar,
                 match get_slope_inter (structarr hdr) with
                 | Some (slope, inter) => apply_read_scaling slope inter <$> raw
                 | None => to_float64 <$> raw
                 end = fdata_item (structarr hdr) <$> raw) as ->.
      { intros raw. unfold fdata_item.
        destruct (get_slope_inter (structarr hdr)) as [[slope inter] |]; reflexivity. }
      rewrite !list_lookup_fmap, items_of_lookup by assumption.
      cbn. rewrite item_of_prefix by nia.
      unfold payload_item. rewrite drop_drop.
      do 4 f_equal. rewrite <- Z2Nat.inj_add by nia. do 2 f_equal. ring.
Qed.

Lemma trailing_bytes_only_reference_loads_witness :
  nifti_gpu_load "trailing.nii" trailing_world = (inl ValueError, trailing_world) /\
  exists img a,
    nib_load "trailing.nii" trailing_world = (inr img, trailing_world) /\
    get_fdata img trailing_world = (inr a, trailing_world) /\
    f_shape a = [4; 4; 4] /\
    f_data a !! 63%nat = Some (to_float64 (SInt 63)).
Proof.
  assert (Nifti1Header_from_fileobj (content trailing_node) = inr synthetic_nifti1header)
    as Hparse.
  { unfold Nifti1Header_from_fileobj.
    assert (Nifti1Header_init (take sizeof_hdr (content trailing_node))
            = inr synthetic_header) as -> by (vm_compute; reflexivity).
    assert (take 4 (drop sizeof_hdr (content trailing_node)) = [x00; x00; x00; x00]) as ->
      by (vm_compute; reflexivity).
    reflexivity. }
  assert (get_data_shape (structarr synthetic_nifti1header) = [4; 4; 4]) as Hs
    by (vm_compute; reflexivity).
  destruct (trailing_bytes_only_reference_loads MiniNifti1.parser trailing_world
              "trailing.nii" trailing_node synthetic_nifti1header)
    as (Hgpu & img & a & Hload & Hdata & Hshape & Hitems).
  - apply lookup_singleton_eq.
  - reflexivity.
  - exact Hparse.
  - vm_compute. discriminate.
  - rewrite Hs. repeat constructor.
  - vm_compute. reflexivity.
  - split; [exact Hgpu |]. exists img, a.
    split; [exact Hload |]. split; [exact Hdata |].
    split; [rewrite Hshape; exact Hs |].
    change 63%nat with (Z.to_nat 63).
    rewrite (Hitems 63) by (rewrite Hs; cbn; lia).
    vm_compute. reflexivity.
Defined.

(** X7.  The accelerated loader never parses header extensions: the parser
    is given a stream of the first 348 bytes and nothing more.  So for a
    well-formed file whose extension flag (byte 348) is set and whose
    extensions the parser refuses, [nib.load] raises the parser's exception,
    while [nifti_gpu_load] returns the array and the metadata as for an
    undamaged file. *)
Theorem broken_extension_only_accelerated_loads :
  forall (parser : HeaderParser) (w : world) (filename : string)
         (node : filenode) (h : header) (e : exn) (b0 b1 b2 b3 : byte),
    wellformed_image_file w filename node h ->
    take 4 (drop sizeof_hdr (content node)) = [b0; b1; b2; b3] ->
    b0 ≠ x00 ->
    exts_from_fileobj h (drop (sizeof_hdr + 4) (content node)) = inl e ->
    nib_load filename w = (inl e, w) /\
    exists arr,
      nifti_gpu_load filename w = (inr (arr, metadata h), w) /\
      nd_shape arr = get_data_shape h /\
      nd_offset arr = get_data_offset h.
Proof.
  intros parser w filename node h e b0 b1 b2 b3 Hwf Hstatus Hflag Hexts.
  split.
  - pose proof (wellformed_length _ _ _ _ Hwf) as Hlen.
    destruct Hwf as (Hfs & Hmode & Hinit & _).
    unfold nib_load. rewrite Hfs.
    rewrite bool_decide_eq_false_2 by (unfold sizeof_hdr in Hlen; lia).
    rewrite Hmode. unfold Nifti1Header_from_fileobj.
    rewrite Hinit. cbn [mbind result_bind rbind]. rewrite Hstatus.
    destruct (Byte.eqb b0 x00) eqn:Hb0.
    + apply Byte.byte_dec_bl in Hb0. contradiction.
    + now rewrite Hexts.
  - eexists. split; [apply (nifti_gpu_load_wellformed w filename node h Hwf) |].
    split; reflexivity.
Qed.

Lemma broken_extension_only_accelerated_loads_witness :
  nib_load "badext.nii" bad_extension_world = (inl ValueError, bad_extension_world) /\
  exists arr,
    nifti_gpu_load "badext.nii" bad_extension_world
      = (inr (arr, metadata bad_extension_header), bad_extension_world) /\
    nd_shape arr = get_data_shape bad_extension_header /\
    nd_offset arr = get_data_offset bad_extension_header.
Proof.
  apply (broken_extension_only_accelerated_loads MiniNifti1.parser bad_extension_world
           "badext.nii" bad_extension_node bad_extension_header ValueError
           x01 x00 x00 x00).
  - unfold wellformed_image_file. split; [| split; [| split; [| split; [| split]]]].
    + apply lookup_singleton_eq.
    + reflexivity.
    + vm_compute. reflexivity.
    + vm_compute. discriminate.
    + assert (get_data_shape bad_extension_header = [4; 4; 4]) as ->
        by (vm_compute; reflexivity).
      repeat constructor.
    + vm_compute. reflexivity.
  - vm_compute. reflexivity.
  - discriminate.
  - vm_compute. reflexivity.
Defined.

Lemma foldl_insert_lookup {V} (items : list (string * V)) :
  forall (m : gmap string V) (key : string),
    foldl (fun m kv => <[kv.1 := kv.2]> m) m items !! key
    = match last (filter (fun kv => kv.1 = key) items) with
      | Some kv => Some kv.2
      | None => m !! key
      end.
Proof.
  induction items as [| [k v] items IH]; intros m key; [reflexivity |].
  cbn [foldl]. rewrite IH, filter_cons. cbn [fst snd].
  destruct (decide (k = key)) as [-> | Hne].
  - rewrite last_cons. destruct (last _); [reflexivity |].
    cbn. apply lookup_insert_eq.
  - destruct (last _); [reflexivity |]. now apply lookup_insert_ne.
Qed.

(** X8.  The metadata of a successful load.  The key [affine] holds the best
    affine of the header, also when the header has a field of that name; every
    other key holds the raw value of the last header item with that name, and
    a key that names no header item is absent. *)
Theorem nifti_gpu_load_metadata_entries :
  forall (parser : HeaderParser) (w : world) (filename : string)
         (arr : ndarray) (meta : gmap string pyobj),
    (nifti_gpu_load filename w).1 = inr (arr, meta) ->
    exists node h,
      fs w !! filename = Some node /\
      Nifti1Header_init (take sizeof_hdr (content node)) = inr h /\
      meta !! "affine" = Some (Matrix (get_best_affine h)) /\
      forall key : string, key ≠ "affine" ->
        meta !! key
        = (fun kv => Field kv.2) <$> last (filter (fun kv => kv.1 = key) (header_items h)).
Proof.
  intros parser w filename arr meta Hload.
  apply nifti_gpu_load_success in Hload as (node & h & Hfs & _ & Hinit & -> & _).
  exists node, h. split; [exact Hfs |]. split; [exact Hinit |].
  unfold metadata. split; [apply lookup_insert_eq |].
  intros key Hkey. rewrite lookup_insert_ne by congruence.
  unfold dict_of_items. rewrite foldl_insert_lookup, lookup_empty.
  induction (header_items h) as [| [k v] items IH]; [reflexivity |].
  rewrite fmap_cons, !filter_cons. cbn [prod_map fst snd id].
  destruct (decide (k = key)) as [-> | Hne].
  - rewrite !last_cons. revert IH.
    destruct (last (filter _ (prod_map id Field <$> items))),
      (last (filter _ items)); cbn; congruence.
  - exact IH.
Qed.

Lemma nifti_gpu_load_metadata_entries_witness :
  exists arr meta,
    nifti_gpu_load "synthetic.nii" synthetic_world = (inr (arr, meta), synthetic_world) /\
    meta !! "affine" = Some (Matrix MiniNifti1.identity_affine) /\
    meta !! "datatype" = Some (Field [x04; x00]) /\
    meta !! "voxels" = None.
Proof.
  pose proof (nifti_gpu_load_wellformed _ _ _ _ synthetic_wellformed) as Hload.
  eexists _, _. split; [exact Hload |].
  destruct (nifti_gpu_load_metadata_entries MiniNifti1.parser synthetic_world
              "synthetic.nii" _ _ (f_equal fst Hload))
    as (node & h & Hfs & Hinit & Haffine & Hkeys).
  unfold synthetic_world, MiniNifti1.one_file in Hfs. cbn [fs] in Hfs.
  rewrite lookup_singleton_eq in Hfs. apply (inj Some) in Hfs. subst node.
  cbn [content] in Hinit.
  assert (Nifti1Header_init (take sizeof_hdr MiniNifti1.synthetic_file)
          = inr synthetic_header) as Hsyn by (vm_compute; reflexivity).
  rewrite Hsyn in Hinit. apply (inj inr) in Hinit. subst h.
  split; [| split].
  - rewrite Haffine. vm_compute. reflexivity.
  - rewrite Hkeys by discriminate. vm_compute. reflexivity.
  - rewrite Hkeys by discriminate. vm_compute. reflexivity.
Defined.

(** X9.  A payload that is not a whole number of items is refused whatever
    the declared shape: when the number of bytes from the clamped data offset
    to the end of the file is not a multiple of the item size, the loader
    raises [ValueError], also for a shape with an inferred extent. *)
Theorem nifti_gpu_load_partial_item :
  forall (parser : HeaderParser) (w : world) (filename : string)
         (node : filenode) (h : header),
    fs w !! filename = Some node -> mode node = Readable ->
    Nifti1Header_init (take sizeof_hdr (content node)) = inr h ->
    (Z.of_nat (length (content node))
       - clamp_index (Z.of_nat (length (content node))) (get_data_offset h))
      mod itemsize (get_data_dtype h) ≠ 0 ->
    nifti_gpu_load filename w = (inl ValueError, w).
Proof.
  intros parser w filename node h Hfs Hmode Hinit Hmod.
  rewrite (nifti_gpu_load_parsed w filename node h Hfs Hmode Hinit).
  rewrite reinterpret_general. cbv zeta.
  destruct (Z.eqb_spec
              ((Z.of_nat (length (content node))
                  - clamp_index (Z.of_nat (length (content node))) (get_data_offset h))
                 mod itemsize (get_data_dtype h)) 0) as [Heq | _];
    [contradiction | reflexivity].
Qed.

Lemma nifti_gpu_load_partial_item_witness :
  nifti_gpu_load "partial.nii" partial_item_world = (inl ValueError, partial_item_world).
Proof.
  apply (nifti_gpu_load_partial_item MiniNifti1.parser partial_item_world "partial.nii"
           partial_item_node synthetic_header).
  - apply lookup_singleton_eq.
  - reflexivity.
  - vm_compute. reflexivity.
  - vm_compute. discriminate.
Defined.

Lemma isclose_same (mr : positive) (er : Z) (ma : positive) (ea : Z) (x : spec_float) :
  isclose (S754_finite false mr er) (S754_finite false ma ea) x x = negb (is_nan x).
Proof.
  destruct (is_nan x) eqn:Hnan.
  - destruct x; try discriminate. reflexivity.
  - now apply isclose_refl.
Qed.

Lemma np_all_eq_same (a : affine) :
  np_all_eq a a = true <-> Forall (Forall (fun x => is_nan x = false)) a.
Proof.
  split; [| apply np_all_eq_diag].
  unfold np_all_eq. induction a as [| row a IH]; [constructor |].
  cbn. intros Hall. apply andb_true_iff in Hall as [Hrow Hrest].
  constructor; [| apply IH, Hrest].
  clear IH Hrest. induction row as [| x row IHrow]; [constructor |].
  cbn in Hrow. apply andb_true_iff in Hrow as [Hx Hrow].
  constructor; [| apply IHrow, Hrow].
  destruct x; try reflexivity. discriminate.
Qed.

Section ValidationFacts.
Context {parser : HeaderParser}.

Lemma np_allclose_loaded_verdict (node : filenode) (h : header) :
  0 ≤ get_data_offset h ->
  get_slope_inter h = None ->
  np_allclose default_rtol default_atol
    {| f_shape := get_data_shape h;
       f_data := fdata_item h <$>
                   (decode (get_data_dtype h) <$>
                      items_of (itemsize (get_data_dtype h)) (prod (get_data_shape h))
                        (drop (Z.to_nat (get_data_offset h)) (content node))) |}
    {| nd_base := content node;
       nd_offset := get_data_offset h;
       nd_dtype := get_data_dtype h;
       nd_shape := get_data_shape h;
       nd_strides := f_strides (itemsize (get_data_dtype h)) (get_data_shape h) |}
  = inr (forallb
           (fun idx => match f_linear (get_data_shape h) idx with
                       | Some k => negb (scalar_is_nan (payload_item node h k))
                       | None => true
                       end)
           (ndindex (get_data_shape h))).
Proof.
  intros Hoff Hscale. unfold np_allclose. cbn [f_shape nd_shape].
  rewrite broadcast_shapes_diag. apply all_results_forallb. intros idx Hidx.
  apply ndindex_bounds in Hidx.
  rewrite (broadcast_index_same _ _ Hidx).
  destruct (f_linear_defined _ _ Hidx) as [k Hk].
  pose proof (f_linear_range _ _ _ Hk) as Hrange.
  unfold fgetitem, getitem. cbn [f_shape f_data nd_shape nd_strides nd_dtype].
  rewrite Hk, (fdata_lookup node h k Hoff Hrange).
  rewrite (item_offset_f_strides _ _ _ _ Hk). cbn.
  change (decode (get_data_dtype h) _) with (payload_item node h k).
  unfold fdata_item. rewrite Hscale. f_equal.
  unfold default_rtol, default_atol. rewrite isclose_same. f_equal.
  destruct (payload_item node h k) as [z | f]; [| reflexivity].
  cbn. apply binary_normalize_number.
Qed.

End ValidationFacts.

(** X10.  The voxel check of the validation cell on a valid file without
    rescaling: [np.allclose(img_cpu_array, img_gpu)] raises nothing, and it is
    [True] exactly when no voxel of the payload is NaN.  A single NaN voxel
    makes the check fail although both loaders decode the same bytes. *)
Theorem voxel_check_true_iff_no_nan :
  forall (parser : HeaderParser) (w : world) (filename : string)
         (node : filenode) (hdr : Nifti1Header),
    valid_image_file w filename node hdr ->
    get_slope_inter (structarr hdr) = None ->
    exists arr meta img ref verdict,
      nifti_gpu_load filename w = (inr (arr, meta), w) /\
      nib_load filename w = (inr img, w) /\
      get_fdata img w = (inr ref, w) /\
      np_allclose default_rtol default_atol ref arr = inr verdict /\
      (verdict = true <->
       forall k, 0 ≤ k < prod (get_data_shape (structarr hdr)) ->
                 scalar_is_nan (payload_item node (structarr hdr) k) = false).
Proof.
  intros parser w filename node hdr Hvalid Hscale.
  do 5 eexists.
  split; [apply (nifti_gpu_load_wellformed _ _ _ _ (proj1 Hvalid)) |].
  split; [apply (nib_load_valid _ _ _ _ Hvalid) |].
  split; [apply (get_fdata_valid _ _ _ _ Hvalid) |].
  destruct Hvalid as [(_ & _ & _ & Hoff & Hpos & _) _].
  split; [apply (np_allclose_loaded_verdict node _ Hoff Hscale) |].
  rewrite forallb_forall. split.
  - intros Hall k Hk.
    destruct (f_linear_onto _ Hpos k Hk) as (idx & Hidx & Hlin).
    specialize (Hall idx (proj1 (list_elem_of_In _ _) (ndindex_complete _ _ Hidx))).
    rewrite Hlin in Hall. now apply negb_true_iff in Hall.
  - intros Hnan idx _.
    destruct (f_linear (get_data_shape (structarr hdr)) idx) as [k |] eqn:Hk;
      [| reflexivity].
    apply negb_true_iff, Hnan, (f_linear_range _ _ _ Hk).
Qed.

Lemma voxel_check_true_iff_no_nan_witness :
  exists arr meta img ref,
    nifti_gpu_load "nan.nii" nan_world = (inr (arr, meta), nan_world) /\
    nib_load "nan.nii" nan_world = (inr img, nan_world) /\
    get_fdata img nan_world = (inr ref, nan_world) /\
    np_allclose default_rtol default_atol ref arr = inr false.
Proof.
  destruct (voxel_check_true_iff_no_nan MiniNifti1.parser nan_world "nan.nii"
              nan_node nan_header nan_valid)
    as (arr & meta & img & ref & verdict & Hacc & Himg & Href & Hclose & Hiff).
  - vm_compute. reflexivity.
  - exists arr, meta, img, ref. do 3 (split; [assumption |]).
    rewrite Hclose. f_equal. destruct verdict; [| reflexivity].
    assert (get_data_shape (structarr nan_header) = [2]) as Hs by (vm_compute; reflexivity).
    assert (scalar_is_nan (payload_item nan_node (structarr nan_header) 1) = false) as Hk.
    { apply (proj1 Hiff eq_refl). rewrite Hs. cbn. lia. }
    vm_compute in Hk. discriminate.
Defined.

(** X11.  The affine check of the validation cell on a valid file: the matrix
    the accelerated loader stores under [affine] is the matrix the reference
    image carries, namely the best affine of the header, and
    [np.all(img_cpu.affine == meta_gpu["affine"])] is [True] exactly when no
    entry of it is NaN. *)
Theorem affine_check_true_iff_no_nan :
  forall (parser : HeaderParser) (w : world) (filename : string)
         (node : filenode) (hdr : Nifti1Header),
    valid_image_file w filename node hdr ->
    exists arr meta img affine_gpu,
      nifti_gpu_load filename w = (inr (arr, meta), w) /\
      nib_load filename w = (inr img, w) /\
      meta !! "affine" = Some (Matrix affine_gpu) /\
      affine_gpu = img_affine img /\
      img_affine img = get_best_affine (structarr hdr) /\
      (np_all_eq (img_affine img) affine_gpu = true <->
       Forall (Forall (fun x => is_nan x = false))
         (get_best_affine (structarr hdr))).
Proof.
  intros parser w filename node hdr Hvalid.
  do 4 eexists.
  split; [apply (nifti_gpu_load_wellformed _ _ _ _ (proj1 Hvalid)) |].
  split; [apply (nib_load_valid _ _ _ _ Hvalid) |].
  split; [apply lookup_insert_eq |].
  split; [reflexivity |]. split; [reflexivity |].
  cbn [img_affine]. apply np_all_eq_same.
Qed.

Lemma affine_check_true_iff_no_nan_witness :
  exists arr meta img affine_gpu,
    nifti_gpu_load "nanaff.nii" nan_affine_world = (inr (arr, meta), nan_affine_world) /\
    nib_load "nanaff.nii" nan_affine_world = (inr img, nan_affine_world) /\
    meta !! "affine" = Some (Matrix affine_gpu) /\
    np_all_eq (img_affine img) affine_gpu = false.
Proof.
  destruct (affine_check_true_iff_no_nan MiniNifti1.parser nan_affine_world
              "nanaff.nii" nan_affine_node nan_affine_nifti1header nan_affine_valid)
    as (arr & meta & img & a & Hacc & Himg & Haff & _ & _ & Hiff).
  exists arr, meta, img, a. do 3 (split; [assumption |]).
  destruct (np_all_eq (img_affine img) a); [| reflexivity].
  apply proj1 in Hiff. specialize (Hiff eq_refl).
  assert (exists r1 r2 r3 x y z, get_best_affine (structarr nan_affine_nifti1header)
          = (S754_nan :: x :: y :: z) :: r1 :: r2 :: r3) as (r1 & r2 & r3 & x & y & z & Hm)
    by (vm_compute; eauto 10).
  rewrite Hm in Hiff. apply Forall_cons in Hiff as [Hrow _].
  apply Forall_cons in Hrow as [Hx _]. discriminate.
Defined.
